(** * CodeBeep: command dispatch and session orchestration

    A shallow embedding of [codebeep/commands.py], [codebeep/bot.py] and the
    parts of [codebeep/opencode_client.py] the bot drives, together with the
    properties of the command registry, the session binding, the dispatcher
    and result delivery.

    Conventions.
    - A Python [str] is a [string]; one [ascii] stands for one character
      with a code point below 256, and [isspace], [lower] are Python's on
      that range.  The few characters beyond it (the bullet and the status
      glyphs of the fixed texts) are held as their UTF-8 bytes.
    - A Python [int] is a [Z].
    - [async] functions are run to completion one after the other; an
      [await] is an ordinary call in the monad [M] below. *)

From Stdlib Require Import String Ascii List ZArith Lia Bool.
From stdpp Require Import gmap strings pretty.
Import ListNotations.

Local Open Scope string_scope.
Local Open Scope list_scope.

(** ** Python strings *)

Module Str.

(** ["\n"] *)
Definition LF : string := String (ascii_of_nat 10) EmptyString.

(** [c.isspace()] for a character below 256. *)
Definition isspace (c : ascii) : bool :=
  let n := nat_of_ascii c in
  (((9 <=? n) && (n <=? 13)) || ((28 <=? n) && (n <=? 32))
   || (n =? 133) || (n =? 160))%nat.

(** [c.lower()] for a character below 256: A-Z, and the capital letters
    of the Latin-1 block (U+00C0 to U+00DE but the multiplication sign). *)
Definition lower_char (c : ascii) : ascii :=
  let n := nat_of_ascii c in
  if (((65 <=? n) && (n <=? 90))
      || ((192 <=? n) && (n <=? 222) && negb (n =? 215)))%nat
  then ascii_of_nat (n + 32) else c.

(** [s.lower()] *)
Fixpoint lower (s : string) : string :=
  match s with
  | EmptyString => EmptyString
  | String c s' => String (lower_char c) (lower s')
  end.

(** [c.upper()] for a character below 256 whose upper-case form is one
    character below 256: a-z, and the small letters of the Latin-1 block
    (U+00E0 to U+00FE but the division sign). *)
Definition upper_char (c : ascii) : ascii :=
  let n := nat_of_ascii c in
  if (((97 <=? n) && (n <=? 122))
      || ((224 <=? n) && (n <=? 254) && negb (n =? 247)))%nat
  then ascii_of_nat (n - 32) else c.

(** [t] is [s] in some letter-casing: the same characters, each as it
    is, in upper case or in lower case. *)
Fixpoint is_casing_of (t s : string) : bool :=
  match t, s with
  | EmptyString, EmptyString => true
  | String a t', String b s' =>
      (Ascii.eqb a b || Ascii.eqb a (upper_char b) || Ascii.eqb a (lower_char b))
      && is_casing_of t' s'
  | _, _ => false
  end.

(** [s.lstrip()] *)
Fixpoint lstrip (s : string) : string :=
  match s with
  | EmptyString => EmptyString
  | String c s' => if isspace c then lstrip s' else s
  end.

(** [s.rstrip()] *)
Fixpoint rstrip (s : string) : string :=
  match s with
  | EmptyString => EmptyString
  | String c s' =>
      match rstrip s' with
      | EmptyString => if isspace c then EmptyString else String c EmptyString
      | r => String c r
      end
  end.

(** [s.strip()] *)
Definition strip (s : string) : string := rstrip (lstrip s).

(** Truth value of a string: [bool(s)]. *)
Definition truthy (s : string) : bool :=
  match s with EmptyString => false | _ => true end.

(** Every character of [s] is whitespace ([s] may be empty). *)
Fixpoint all_space (s : string) : bool :=
  match s with
  | EmptyString => true
  | String c s' => isspace c && all_space s'
  end.

(** [s.startswith(p)] *)
Definition startswith (s p : string) : bool := String.prefix p s.

(** [s[n:]] for [0 <= n]. *)
Fixpoint drop (n : nat) (s : string) : string :=
  match n, s with
  | O, _ => s
  | S n', EmptyString => EmptyString
  | S n', String _ s' => drop n' s'
  end.

(** [s[:n]] for [0 <= n]. *)
Definition take (n : nat) (s : string) : string := String.substring 0 n s.

(** [needle in hay] *)
Fixpoint contains (needle hay : string) : bool :=
  String.prefix needle hay
  || match hay with
     | EmptyString => false
     | String _ hay' => contains needle hay'
     end.

(** The leading run of non-whitespace characters of [s], and what
    follows it. *)
Fixpoint span_word (s : string) : string * string :=
  match s with
  | EmptyString => (EmptyString, EmptyString)
  | String c s' =>
      if isspace c then (EmptyString, s)
      else let (w, r) := span_word s' in (String c w, r)
  end.

(** [s.split(maxsplit=1)]: skip leading whitespace; no word, no parts;
    else the first word, and, when something other than whitespace
    follows it, the rest from its first non-whitespace character on. *)
Definition split1 (s : string) : list string :=
  match lstrip s with
  | EmptyString => []
  | s1 =>
      let (w, r) := span_word s1 in
      match lstrip r with
      | EmptyString => [w]
      | r1 => [w; r1]
      end
  end.

(** [sep.join(l)] *)
Fixpoint join (sep : string) (l : list string) : string :=
  match l with
  | [] => EmptyString
  | [x] => x
  | x :: l' => x +:+ sep +:+ join sep l'
  end.

(** [", ".join(l)] and the like read better with the list last. *)
Definition concat (l : list string) : string :=
  fold_right String.append EmptyString l.

End Str.

(** ** Python dicts that are iterated: keys in insertion order *)

Module Dict.

Section Dict.
Context {V : Type}.

Definition t := list (string * V).

Definition empty : t := [].

(** [d.get(k)] *)
Fixpoint get (k : string) (d : t) : option V :=
  match d with
  | [] => None
  | (k', v) :: d' => if String.eqb k k' then Some v else get k d'
  end.

(** [d[k] = v]: an existing key keeps its place, a new one goes last. *)
Fixpoint set (k : string) (v : V) (d : t) : t :=
  match d with
  | [] => [(k, v)]
  | (k', v') :: d' =>
      if String.eqb k k' then (k', v) :: d' else (k', v') :: set k v d'
  end.

(** [d.keys()], [d.values()] *)
Definition keys (d : t) : list string := map fst d.
Definition values (d : t) : list V := map snd d.
End Dict.

Arguments t : clear implicits.

End Dict.

(** ** commands.py: the command classes *)

Inductive CommandClass :=
| BuildCommand | PlanCommand | StatusCommand | SessionsCommand
| AbortCommand | ModelCommand | HelpCommand | AgentsCommand.

Definition CommandClass_eqb (a b : CommandClass) : bool :=
  match a, b with
  | BuildCommand, BuildCommand | PlanCommand, PlanCommand
  | StatusCommand, StatusCommand | SessionsCommand, SessionsCommand
  | AbortCommand, AbortCommand | ModelCommand, ModelCommand
  | HelpCommand, HelpCommand | AgentsCommand, AgentsCommand => true
  | _, _ => false
  end.

Definition class_name (c : CommandClass) : string :=
  match c with
  | BuildCommand => "build"
  | PlanCommand => "plan"
  | StatusCommand => "status"
  | SessionsCommand => "sessions"
  | AbortCommand => "abort"
  | ModelCommand => "model"
  | HelpCommand => "help"
  | AgentsCommand => "agents"
  end.

Definition class_description (c : CommandClass) : string :=
  match c with
  | BuildCommand => "Execute a coding task with full access to modify files"
  | PlanCommand => "Analyze code and plan changes without modifying files"
  | StatusCommand => "Check the status of current tasks"
  | SessionsCommand => "List all OpenCode sessions"
  | AbortCommand => "Stop the current running task"
  | ModelCommand => "Switch the AI model"
  | HelpCommand => "Show available commands"
  | AgentsCommand => "List available OpenCode agents"
  end.

Definition class_usage (c : CommandClass) : string :=
  match c with
  | BuildCommand => "/build <task description>"
  | PlanCommand => "/plan <analysis request>"
  | StatusCommand => "/status"
  | SessionsCommand => "/sessions"
  | AbortCommand => "/abort [session_id]"
  | ModelCommand => "/model <model_name>"
  | HelpCommand => "/help [command]"
  | AgentsCommand => "/agents"
  end.

Definition class_aliases (c : CommandClass) : list string :=
  match c with
  | BuildCommand => ["b"; "do"; "code"]
  | PlanCommand => ["p"; "analyze"; "review"]
  | StatusCommand => ["s"; "st"]
  | SessionsCommand => ["ls"; "list"]
  | AbortCommand => ["stop"; "cancel"]
  | ModelCommand => ["m"]
  | HelpCommand => ["h"; "?"]
  | AgentsCommand => ["a"]
  end.

(** [ALL_COMMANDS] *)
Definition ALL_COMMANDS : list CommandClass :=
  [BuildCommand; PlanCommand; StatusCommand; SessionsCommand;
   AbortCommand; ModelCommand; HelpCommand; AgentsCommand].

(** A command object: [cmd_class()].  [oid] is the object's identity (two
    references are the same instance when their [oid]s agree), [cls] its
    class, which fixes [name], [description], [usage], [aliases] and
    [execute]. *)
Record Command := { oid : nat; cls : CommandClass }.

Definition name (c : Command) : string := class_name (cls c).
Definition description (c : Command) : string := class_description (cls c).
Definition usage (c : Command) : string := class_usage (cls c).
Definition aliases (c : Command) : list string := class_aliases (cls c).

Definition Command_eqb (a b : Command) : bool :=
  Nat.eqb (oid a) (oid b) && CommandClass_eqb (cls a) (cls b).

(** ** bot.py: [CodeBeepBot.__init__], the registry *)

(** The body of the loop over [ALL_COMMANDS] for one instance:
    [self.commands[cmd.name] = cmd], then every alias. *)
Definition register (d : Dict.t Command) (cmd : Command) : Dict.t Command :=
  fold_left (fun d alias => Dict.set alias cmd d) (aliases cmd)
            (Dict.set (name cmd) cmd d).

(** The loop: the [k]-th class instantiated yields the object [k]. *)
Fixpoint register_all (classes : list CommandClass) (next : nat)
         (d : Dict.t Command) : Dict.t Command :=
  match classes with
  | [] => d
  | c :: classes' =>
      register_all classes' (S next) (register d {| oid := next; cls := c |})
  end.

(** [self.commands] after [__init__]. *)
Definition init_commands : Dict.t Command :=
  register_all ALL_COMMANDS 0 Dict.empty.

(** [self.commands.get(token.lower())], the lookup of [handle_message]. *)
Definition lookup (commands : Dict.t Command) (token : string)
  : option Command :=
  Dict.get (Str.lower token) commands.


(** ** opencode_client.py: data *)

Module Session.
Record t := {
  id : string;
  title : option string;
  parent_id : option string;
  created_at : string;
  updated_at : string;
  share : option string
}.
End Session.

Module SessionStatus.
Record t := {
  session_id : string;
  status : string;
  agent : option string;
  model : option string
}.
End SessionStatus.

(** JSON values as the request bodies use them. *)
#[warnings="-register-all"]
Inductive Json :=
| JStr (s : string)
| JList (l : list Json)
| JDict (d : list (string * Json)).

(** ** commands.py: [CommandResult] *)

Module CommandResult.
Record t := {
  success : bool;
  message : string;
  data : option (Dict.t string)
}.
End CommandResult.

(** ** Exceptions *)

Inductive Exn :=
| HTTPStatusError (status : Z) (path : string)
| ConnectError
| ValueError (msg : string).

(** [str(e)] *)
Definition exn_str (e : Exn) : string :=
  match e with
  | HTTPStatusError st path =>
      "HTTP status " +:+ pretty st +:+ " for url " +:+ path
  | ConnectError => "All connection attempts failed"
  | ValueError msg => msg
  end.

Inductive Res (A : Type) :=
| Ok (a : A)
| Raise (e : Exn).
Arguments Ok {A} a.
Arguments Raise {A} e.

(** ** The control-plane server, as the client sees it

    The server is not part of the repository.  Its state here is what the
    endpoints the bot uses answer from: the sessions it holds, the status
    object and the agent list it reports, and a schedule of transport
    faults ([true]: the next request fails before it reaches the server;
    an exhausted schedule means no fault).  A session is deleted from the
    server only from outside, by replacing [srv_sessions]. *)

Record StatusJson := {
  j_status : option string;
  j_agent : option string;
  j_model : option string
}.

Record Server := {
  srv_sessions : list Session.t;
  srv_status : Dict.t StatusJson;
  srv_agents : list (Dict.t string);
  srv_created : nat;
  srv_faults : list bool
}.

Definition set_srv_sessions (l : list Session.t) (s : Server) : Server :=
  {| srv_sessions := l; srv_status := srv_status s;
     srv_agents := srv_agents s; srv_created := srv_created s;
     srv_faults := srv_faults s |}.

Definition set_srv_created (n : nat) (s : Server) : Server :=
  {| srv_sessions := srv_sessions s; srv_status := srv_status s;
     srv_agents := srv_agents s; srv_created := n;
     srv_faults := srv_faults s |}.

Definition set_srv_faults (f : list bool) (s : Server) : Server :=
  {| srv_sessions := srv_sessions s; srv_status := srv_status s;
     srv_agents := srv_agents s; srv_created := srv_created s;
     srv_faults := f |}.

Fixpoint find_session (sid : string) (l : list Session.t) : option Session.t :=
  match l with
  | [] => None
  | s :: l' => if String.eqb (Session.id s) sid then Some s else find_session sid l'
  end.

Definition json_str (j : option Json) : option string :=
  match j with
  | Some (JStr s) => Some s
  | _ => None
  end.

(** The id the server assigns to the [n]-th session it creates. *)
Definition new_id (n : nat) : string := "ses_" +:+ pretty n.

(** [GET /session/{id}]: 404 when the server holds no such session. *)
Definition serve_get_session (sid : string) (s : Server) : Res Session.t * Server :=
  match find_session sid (srv_sessions s) with
  | Some x => (Ok x, s)
  | None => (Raise (HTTPStatusError 404 ("/session/" +:+ sid)), s)
  end.

(** [POST /session]: a new session under a server-assigned id, with the
    title and parent of the body when it has them. *)
Definition serve_create_session (body : gmap string Json) (s : Server)
  : Res Session.t * Server :=
  let x := {| Session.id := new_id (srv_created s);
              Session.title := json_str (body !! "title");
              Session.parent_id := json_str (body !! "parentID");
              Session.created_at := pretty (srv_created s);
              Session.updated_at := pretty (srv_created s);
              Session.share := None |} in
  (Ok x, set_srv_created (S (srv_created s))
           (set_srv_sessions (srv_sessions s ++ [x]) s)).

(** [POST /session/{id}/prompt_async]: accepted when the session exists. *)
Definition serve_prompt_async (sid : string) (s : Server) : Res unit * Server :=
  match find_session sid (srv_sessions s) with
  | Some _ => (Ok tt, s)
  | None => (Raise (HTTPStatusError 404 ("/session/" +:+ sid +:+ "/prompt_async")), s)
  end.

(** [POST /session/{id}/abort] *)
Definition serve_abort_session (sid : string) (s : Server) : Res bool * Server :=
  match find_session sid (srv_sessions s) with
  | Some _ => (Ok true, s)
  | None => (Raise (HTTPStatusError 404 ("/session/" +:+ sid +:+ "/abort")), s)
  end.

(** ** The world: bot state, server, and the calls that left the process *)

Inductive ClientMethod :=
| list_sessions_ | get_session_status_ | create_session_ | get_session_
| abort_session_ | send_message_async_ | list_agents_.

Inductive Call :=
| HttpGet (by_ : ClientMethod) (path : string)
| HttpPost (by_ : ClientMethod) (path : string) (json : option (gmap string Json))
| send_text_message_ (room_id text : string)
| send_markdown_message_ (room_id text : string)
| room_typing_ (room_id : string) (typing : bool).

Record World := {
  current_model : option string;
  active_session : option Session.t;
  server : Server;
  trace : list Call
}.

Definition set_current_model (m : option string) (w : World) : World :=
  {| current_model := m; active_session := active_session w;
     server := server w; trace := trace w |}.

Definition set_active_session (a : option Session.t) (w : World) : World :=
  {| current_model := current_model w; active_session := a;
     server := server w; trace := trace w |}.

Definition set_server (s : Server) (w : World) : World :=
  {| current_model := current_model w; active_session := active_session w;
     server := s; trace := trace w |}.

Definition log (c : Call) (w : World) : World :=
  {| current_model := current_model w; active_session := active_session w;
     server := server w; trace := trace w ++ [c] |}.

(** ** The monad of the bot's coroutines: state and exceptions *)

Definition M (A : Type) : Type := World -> Res A * World.

Definition ret {A} (a : A) : M A := fun w => (Ok a, w).

Definition bind {A B} (m : M A) (k : A -> M B) : M B :=
  fun w => match m w with
           | (Ok a, w') => k a w'
           | (Raise e, w') => (Raise e, w')
           end.

Definition raise {A} (e : Exn) : M A := fun w => (Raise e, w).

(** [try: m  except Exception as e: h e] *)
Definition try_except {A} (m : M A) (h : Exn -> M A) : M A :=
  fun w => match m w with
           | (Ok a, w') => (Ok a, w')
           | (Raise e, w') => h e w'
           end.

(** [try: m  finally: f] *)
Definition try_finally {A} (m : M A) (f : M unit) : M A :=
  fun w => match m w with
           | (r, w') =>
               match f w' with
               | (Ok _, w'') => (r, w'')
               | (Raise e, w'') => (Raise e, w'')
               end
           end.

Definition lift {A} (r : Res A) : M A := fun w => (r, w).

Declare Scope m_scope.
Delimit Scope m_scope with M.
Notation "x <- c1 ;; c2" := (bind c1 (fun x => c2))
  (at level 100, c1 at next level, right associativity) : m_scope.
Notation "c1 ;; c2" := (bind c1 (fun _ => c2))
  (at level 100, right associativity) : m_scope.
Local Open Scope m_scope.

(** The transport's verdict on the next request: a fault or not, and the
    server with the schedule moved on. *)
Definition next_fault (s : Server) : bool * Server :=
  match srv_faults s with
  | [] => (false, s)
  | b :: f => (b, set_srv_faults f s)
  end.

(** One HTTP exchange of the client: the request leaves the process, then
    either the transport fails or the server answers;
    [response.raise_for_status()] is the [Raise] of the answer. *)
Definition http {A} (c : Call) (serve : Server -> Res A * Server) : M A :=
  fun w =>
    let w1 := log c w in
    let (fault, s) := next_fault (server w1) in
    if fault then (Raise ConnectError, set_server s w1)
    else let (r, s') := serve s in (r, set_server s' w1).

(** The chat transport accepts every call. *)
Definition chat (c : Call) : M unit := fun w => (Ok tt, log c w).

(** ** opencode_client.py: [OpenCodeClient] *)

(** The request body of [create_session]: [if title: body["title"] = title],
    [if parent_id: body["parentID"] = parent_id]. *)
Definition create_session_body (title parent_id : option string) : gmap string Json :=
  let body : gmap string Json := ∅ in
  let body := match title with
              | Some t => if Str.truthy t then <["title" := JStr t]> body else body
              | None => body
              end in
  let body := match parent_id with
              | Some p => if Str.truthy p then <["parentID" := JStr p]> body else body
              | None => body
              end in
  body.

Definition create_session (title parent_id : option string) : M Session.t :=
  let body := create_session_body title parent_id in
  http (HttpPost create_session_ "/session" (Some body)) (serve_create_session body).

Definition get_session (session_id : string) : M Session.t :=
  http (HttpGet get_session_ ("/session/" +:+ session_id)) (serve_get_session session_id).

Definition list_sessions : M (list Session.t) :=
  http (HttpGet list_sessions_ "/session") (fun s => (Ok (srv_sessions s), s)).

(** The dict comprehension of [get_session_status]. *)
Definition parse_status (data : Dict.t StatusJson) : Dict.t SessionStatus.t :=
  fold_left
    (fun d '(session_id, st) =>
       Dict.set session_id
         {| SessionStatus.session_id := session_id;
            SessionStatus.status := default "idle" (j_status st);
            SessionStatus.agent := j_agent st;
            SessionStatus.model := j_model st |} d)
    data Dict.empty.

Definition get_session_status : M (Dict.t SessionStatus.t) :=
  http (HttpGet get_session_status_ "/session/status")
       (fun s => (Ok (parse_status (srv_status s)), s)).

Definition abort_session (session_id : string) : M bool :=
  http (HttpPost abort_session_ ("/session/" +:+ session_id +:+ "/abort") None)
       (serve_abort_session session_id).

(** The request body of [send_message_async]. *)
Definition send_message_body (content : string) (agent model : option string)
  : gmap string Json :=
  let body : gmap string Json :=
    {[ "parts" := JList [JDict [("type", JStr "text"); ("text", JStr content)]] ]} in
  let body := match agent with
              | Some a => if Str.truthy a then <["agent" := JStr a]> body else body
              | None => body
              end in
  let body := match model with
              | Some m => if Str.truthy m then <["model" := JStr m]> body else body
              | None => body
              end in
  body.

Definition send_message_async (session_id content : string)
           (agent model : option string) : M unit :=
  http (HttpPost send_message_async_
          ("/session/" +:+ session_id +:+ "/prompt_async")
          (Some (send_message_body content agent model)))
       (serve_prompt_async session_id).

Definition list_agents : M (list (Dict.t string)) :=
  http (HttpGet list_agents_ "/agent") (fun s => (Ok (srv_agents s), s)).

Definition get_world : M World := fun w => (Ok w, w).
Definition modify (f : World -> World) : M unit := fun w => (Ok tt, f w).

(** ** config.py: the settings the dispatcher reads *)

Record Config := {
  prefix : string;                 (* bot.prefix *)
  typing_indicator : bool;         (* bot.typing_indicator *)
  max_message_length : Z;          (* bot.max_message_length *)
  unknown_command_reply : bool;    (* bot.unknown_command_reply *)
  allowed_users : list string;     (* matrix.allowed_users *)
  username : string                (* matrix.username *)
}.

Record Event := {
  sender : option string;          (* None: no such attribute, or None *)
  body : option string;            (* None: no such attribute *)
  source_body : option string      (* event.source["content"]["body"] *)
}.

(** What of the bot does not change after [__init__]: the configuration,
    the registry, and the answer of the chat library's
    [MessageMatch(room, event, self.bot, prefix).is_not_from_this_bot()],
    which may raise. *)
Record Bot := {
  config : Config;
  commands : Dict.t Command;
  is_not_from_this_bot : string -> Event -> Res bool
}.

(** ** bot.py: the session binding *)

Definition get_or_create_session : M Session.t :=
  w <- get_world ;;
  verified <-
    match active_session w with
    | Some cached =>
        try_except
          (session <- get_session (Session.id cached) ;; ret (Some session))
          (fun _ => modify (set_active_session None) ;; ret None)
    | None => ret None
    end ;;
  match verified with
  | Some session => ret session
  | None =>
      session <- create_session (Some "codebeep mobile session") None ;;
      modify (set_active_session (Some session)) ;;
      ret session
  end.

(** ** bot.py: authorization *)

Definition is_user_allowed (cfg : Config) (user_id : string) : bool :=
  match allowed_users cfg with
  | [] => true
  | allowed => existsb (String.eqb user_id) allowed
  end.

(** ** bot.py: result delivery *)

(** The values of [range(start, stop, step)] for a positive and for a
    negative step; [fuel] bounds the number of values. *)
Fixpoint range_up (fuel : nat) (i stop step : Z) : list Z :=
  match fuel with
  | O => []
  | S fuel' => if (i <? stop)%Z then i :: range_up fuel' (i + step) stop step else []
  end.

Fixpoint range_down (fuel : nat) (i stop step : Z) : list Z :=
  match fuel with
  | O => []
  | S fuel' => if (stop <? i)%Z then i :: range_down fuel' (i + step) stop step else []
  end.

(** [range(start, stop, step)] *)
Definition range (start stop step : Z) : Res (list Z) :=
  if (step =? 0)%Z then Raise (ValueError "range() arg 3 must not be zero")
  else if (0 <? step)%Z
       then Ok (range_up (Z.to_nat (stop - start)) start stop step)
       else Ok (range_down (Z.to_nat (start - stop)) start stop step).

(** [len(s)] *)
Definition len (s : string) : Z := Z.of_nat (String.length s).

(** A slice bound brought into [0 .. len]: negative bounds count from the
    end. *)
Definition slice_bound (n i : Z) : Z :=
  if (i <? 0)%Z then Z.max 0 (i + n) else Z.min i n.

(** [s[i:j]] *)
Definition slice (s : string) (i j : Z) : string :=
  let a := slice_bound (len s) i in
  let b := slice_bound (len s) j in
  String.substring (Z.to_nat a) (Z.to_nat (b - a)) s.

(** The list [parts] of [_send_result]. *)
Definition parts (message : string) (max_len : Z) : Res (list string) :=
  match range 0 (len message) max_len with
  | Ok l => Ok (map (fun i => slice message i (i + max_len)) l)
  | Raise e => Raise e
  end.

Fixpoint for_each {A} (f : A -> M unit) (l : list A) : M unit :=
  match l with
  | [] => ret tt
  | x :: l' => f x ;; for_each f l'
  end.

Definition send_markdown_message (room_id text : string) : M unit :=
  chat (send_markdown_message_ room_id text).

Definition send_text_message (room_id text : string) : M unit :=
  chat (send_text_message_ room_id text).

Definition room_typing (room_id : string) (typing : bool) : M unit :=
  chat (room_typing_ room_id typing).

Definition _send_result (cfg : Config) (room_id : string) (result : CommandResult.t)
  : M unit :=
  let message := CommandResult.message result in
  let max_len := max_message_length cfg in
  if (max_len <? len message)%Z then
    ps <- lift (parts message max_len) ;;
    for_each (send_markdown_message room_id) ps
  else send_markdown_message room_id message.

(** ** commands.py: the handlers *)

Import CommandResult.

Definition result (ok : bool) (msg : string) : CommandResult.t :=
  {| success := ok; message := msg; data := None |}.

(** [id[:8]] followed by the three dots of the texts. *)
Definition short_id (sid : string) : string := Str.take 8 sid +:+ "...".

Definition BuildCommand_execute (args : string) : M CommandResult.t :=
  if negb (Str.truthy (Str.strip args)) then
    ret (result false
           ("Please provide a task description." +:+ Str.LF +:+ "Usage: /build <task>"))
  else
    try_except
      (session <- get_or_create_session ;;
       send_message_async (Session.id session) args (Some "build") None ;;
       ret {| success := true;
              message := "Task started with build agent." +:+ Str.LF
                         +:+ "Session: " +:+ short_id (Session.id session)
                         +:+ Str.LF +:+ Str.LF
                         +:+ "I'll notify you when it's complete.";
              data := Some [("session_id", Session.id session)] |})
      (fun e => ret (result false ("Failed to start task: " +:+ exn_str e))).

Definition PlanCommand_execute (args : string) : M CommandResult.t :=
  if negb (Str.truthy (Str.strip args)) then
    ret (result false
           ("Please provide an analysis request." +:+ Str.LF +:+ "Usage: /plan <request>"))
  else
    try_except
      (session <- get_or_create_session ;;
       send_message_async (Session.id session) args (Some "plan") None ;;
       ret {| success := true;
              message := "Analysis started with plan agent." +:+ Str.LF
                         +:+ "Session: " +:+ short_id (Session.id session)
                         +:+ Str.LF +:+ Str.LF
                         +:+ "I'll notify you when it's complete.";
              data := Some [("session_id", Session.id session)] |})
      (fun e => ret (result false ("Failed to start analysis: " +:+ exn_str e))).

Definition status_emoji (status : string) : string :=
  default "❓" (Dict.get status [("idle", "💤"); ("running", "🔄"); ("waiting", "⏳")]).

Definition status_line (session_id : string) (st : SessionStatus.t) : string :=
  status_emoji (SessionStatus.status st) +:+ " `" +:+ short_id session_id
  +:+ "` - " +:+ SessionStatus.status st
  +:+ match SessionStatus.agent st with
      | Some a => if Str.truthy a then " (" +:+ a +:+ ")" else EmptyString
      | None => EmptyString
      end.

Definition StatusCommand_execute (args : string) : M CommandResult.t :=
  try_except
    (statuses <- get_session_status ;;
     match statuses with
     | [] => ret (result true "No active sessions.")
     | _ =>
         let lines := ("**Session Status:**" +:+ Str.LF)
                      :: map (fun '(sid, st) => status_line sid st) statuses in
         ret (result true (Str.join Str.LF lines))
     end)
    (fun e => ret (result false ("Failed to get status: " +:+ exn_str e))).

Definition session_line (session : Session.t) : string :=
  let title := match Session.title session with
               | Some t => if Str.truthy t then t else "Untitled"
               | None => "Untitled"
               end in
  "• `" +:+ short_id (Session.id session) +:+ "` - " +:+ title.

Definition SessionsCommand_execute (args : string) : M CommandResult.t :=
  try_except
    (sessions <- list_sessions ;;
     match sessions with
     | [] => ret (result true "No sessions found.")
     | _ =>
         let lines := ("**Sessions:**" +:+ Str.LF)
                      :: map session_line (firstn 10 sessions) in
         let lines :=
           if (10 <? length sessions)%nat
           then lines ++ [Str.LF +:+ "... and " +:+ pretty (length sessions - 10)%nat
                          +:+ " more"]
           else lines in
         ret (result true (Str.join Str.LF lines))
     end)
    (fun e => ret (result false ("Failed to list sessions: " +:+ exn_str e))).

Definition AbortCommand_execute (args : string) : M CommandResult.t :=
  try_except
    (picked <-
       (if Str.truthy (Str.strip args) then ret (Some (Str.strip args))
        else
          statuses <- get_session_status ;;
          let running :=
            map fst (filter (fun '(_, st) => String.eqb (SessionStatus.status st) "running")
                            statuses) in
          ret (match running with
               | [] => None
               | sid :: _ => Some sid
               end)) ;;
     match picked with
     | None => ret (result false "No running tasks to abort.")
     | Some session_id =>
         abort_session session_id ;;
         ret (result true ("Aborted session `" +:+ short_id session_id +:+ "`"))
     end)
    (fun e => ret (result false ("Failed to abort: " +:+ exn_str e))).

Definition known_models : string :=
  "**Available models:**" +:+ Str.LF
  +:+ "• `claude-opus-4.5` - Most capable" +:+ Str.LF
  +:+ "• `claude-sonnet-4.5` - Fast and capable" +:+ Str.LF
  +:+ "• `gemini-3-pro-high` - Google's best" +:+ Str.LF
  +:+ "• `gemini-3-flash` - Ultra fast" +:+ Str.LF +:+ Str.LF
  +:+ "Usage: /model <name>".

Definition ModelCommand_execute (args : string) : M CommandResult.t :=
  if negb (Str.truthy (Str.strip args)) then ret (result true known_models)
  else
    let model := Str.strip args in
    modify (set_current_model (Some model)) ;;
    ret (result true ("Switched to model: `" +:+ model +:+ "`")).

(** The loop of [HelpCommand.execute] over [bot.commands.values()] that
    looks for a command with [cmd_name] among its aliases. *)
Fixpoint find_by_alias (cmd_name : string) (cs : list Command) : option Command :=
  match cs with
  | [] => None
  | c :: cs' =>
      if existsb (String.eqb cmd_name) (aliases c) then Some c
      else find_by_alias cmd_name cs'
  end.

Definition help_for (cmd : Command) : string :=
  let al := match aliases cmd with
            | [] => EmptyString
            | l => " (aliases: " +:+ Str.join ", " l +:+ ")"
            end in
  "**/" +:+ name cmd +:+ "**" +:+ al +:+ Str.LF +:+ Str.LF +:+ description cmd
  +:+ Str.LF +:+ Str.LF +:+ "Usage: `" +:+ usage cmd +:+ "`".

(** One line of the general help. *)
Definition help_line (cmd : Command) : string :=
  "• `/" +:+ name cmd +:+ "` - " +:+ description cmd.

(** The list [lines] of the general help, when it is joined. *)
Definition help_lines (cmds : Dict.t Command) : list string :=
  (("**codebeep Commands:**" +:+ Str.LF) :: map help_line (Dict.values cmds))
  ++ [Str.LF +:+ Str.LF +:+ "Use `/help <command>` for more details."].

Definition HelpCommand_execute (bot : Bot) (args : string) : M CommandResult.t :=
  if Str.truthy (Str.strip args) then
    let cmd_name := Str.lower (Str.strip args) in
    let cmd := match Dict.get cmd_name (commands bot) with
               | Some c => Some c
               | None => find_by_alias cmd_name (Dict.values (commands bot))
               end in
    match cmd with
    | None => ret (result false ("Unknown command: " +:+ cmd_name))
    | Some c => ret (result true (help_for c))
    end
  else ret (result true (Str.join Str.LF (help_lines (commands bot)))).

Definition agent_line (agent : Dict.t string) : string :=
  "• **" +:+ default "unknown" (Dict.get "name" agent) +:+ "** - "
  +:+ default "No description" (Dict.get "description" agent).

Definition AgentsCommand_execute (args : string) : M CommandResult.t :=
  try_except
    (agents <- list_agents ;;
     match agents with
     | [] => ret (result true "No agents available.")
     | _ =>
         let lines := ("**Available Agents:**" +:+ Str.LF) :: map agent_line agents in
         ret (result true (Str.join Str.LF lines))
     end)
    (fun e => ret (result false ("Failed to list agents: " +:+ exn_str e))).

(** [cmd.execute(bot, args)]: dispatch on the class of the instance. *)
Definition execute (cmd : Command) (bot : Bot) (args : string) : M CommandResult.t :=
  match cls cmd with
  | BuildCommand => BuildCommand_execute args
  | PlanCommand => PlanCommand_execute args
  | StatusCommand => StatusCommand_execute args
  | SessionsCommand => SessionsCommand_execute args
  | AbortCommand => AbortCommand_execute args
  | ModelCommand => ModelCommand_execute args
  | HelpCommand => HelpCommand_execute bot args
  | AgentsCommand => AgentsCommand_execute args
  end.

(** ** bot.py: the dispatcher *)

Definition when (b : bool) (m : M unit) : M unit := if b then m else ret tt.

Definition handle_message (bot : Bot) (room_id : string) (event : Event) : M unit :=
  let cfg := config bot in
  match sender event with
  | None => ret tt
  | Some sender_ =>
      if negb (Str.truthy sender_) then ret tt else
      let body_ := match body event with
                   | Some b => b
                   | None => default EmptyString (source_body event)
                   end in
      if negb (Str.truthy body_) then ret tt else
      let from_bot := match is_not_from_this_bot bot room_id event with
                      | Ok b => negb b
                      | Raise _ => String.eqb sender_ (username cfg)
                      end in
      if from_bot then ret tt else
      if negb (is_user_allowed cfg sender_) then ret tt else
      if negb (Str.startswith body_ (prefix cfg)) then ret tt else
      match Str.split1 (Str.drop (String.length (prefix cfg)) body_) with
      | [] => ret tt
      | token :: rest =>
          let cmd_name := Str.lower token in
          let args := match rest with
                      | a :: _ => a
                      | [] => EmptyString
                      end in
          match Dict.get cmd_name (commands bot) with
          | None =>
              when (unknown_command_reply cfg)
                (send_text_message room_id
                   ("Unknown command: " +:+ cmd_name +:+ Str.LF
                    +:+ "Use /help to see available commands."))
          | Some cmd =>
              when (typing_indicator cfg) (room_typing room_id true) ;;
              try_finally
                (try_except
                   (r <- execute cmd bot args ;; _send_result cfg room_id r)
                   (fun e => send_text_message room_id
                               ("Error executing command: " +:+ exn_str e)))
                (when (typing_indicator cfg) (room_typing room_id false))
          end
      end
  end.

(** ** opencode_client.py: the event stream *)

(** What [json.loads], from the standard library, does with a text: it
    returns a value, it raises [JSONDecodeError], or it raises something
    else, kept by its name ([RecursionError] on a text nested too deep,
    plain [ValueError] on an integer literal with too many digits). *)
Inductive Loaded (Ev : Type) :=
| Value (e : Ev)
| JSONDecodeError
| OtherException (what : string).
Arguments Value {Ev} e.
Arguments JSONDecodeError {Ev}.
Arguments OtherException {Ev} what.

(** What the body of the loop over the lines does with one line. *)
Inductive LineOutcome (Ev : Type) :=
| Yields (e : Ev)
| Skipped
| Raises (what : string).
Arguments Yields {Ev} e.
Arguments Skipped {Ev}.
Arguments Raises {Ev} what.

(** What resuming the generator gives: the next event and the lines left,
    the end of the iteration, or an exception that comes out of it. *)
Inductive Resumed (Ev : Type) :=
| Next (e : Ev) (rest : list string)
| StopAsyncIteration
| Propagates (what : string).
Arguments Next {Ev} e rest.
Arguments StopAsyncIteration {Ev}.
Arguments Propagates {Ev} what.

(** How a subscription ends: the lines run out, the status check of the
    response raises, or [json.loads] raises what the loop does not catch. *)
Inductive StreamEnd :=
| Exhausted
| StatusError (e : Exn)
| LoadsError (what : string).

Section Events.
Context {Ev : Type} (json_loads : string -> Loaded Ev).

(** The body of the loop over [response.aiter_lines()] for one line; only
    [JSONDecodeError] is caught. *)
Definition event_of_line (line : string) : LineOutcome Ev :=
  if Str.startswith line "data: " then
    let data := Str.drop 6 line in
    if Str.truthy data then
      match json_loads data with
      | Value e => Yields e
      | JSONDecodeError => Skipped
      | OtherException what => Raises what
      end
    else Skipped
  else Skipped.

(** The generator resumed with [lines] still to come. *)
Fixpoint anext (lines : list string) : Resumed Ev :=
  match lines with
  | [] => StopAsyncIteration
  | line :: lines' =>
      match event_of_line line with
      | Yields e => Next e lines'
      | Skipped => anext lines'
      | Raises what => Propagates what
      end
  end.

(** Everything the generator yields over [lines], in order, and how it
    ends. *)
Fixpoint events_of (lines : list string) : list Ev * StreamEnd :=
  match lines with
  | [] => ([], Exhausted)
  | line :: lines' =>
      match event_of_line line with
      | Yields e => let (events, ending) := events_of lines' in (e :: events, ending)
      | Skipped => events_of lines'
      | Raises what => ([], LoadsError what)
      end
  end.

(** [subscribe_events]; the response is the outcome of the status check
    and the lines that follow it. *)
Definition subscribe_events (response : Res (list string)) : list Ev * StreamEnd :=
  match response with
  | Ok lines => events_of lines
  | Raise e => ([], StatusError e)
  end.
End Events.

(** ** Counting the calls of a trace *)

Definition is_get_session (c : Call) : bool :=
  match c with
  | HttpGet get_session_ _ => true
  | _ => false
  end.

Definition is_create_session (c : Call) : bool :=
  match c with
  | HttpPost create_session_ _ _ => true
  | _ => false
  end.

Definition count (p : Call -> bool) (l : list Call) : nat := length (filter p l).

(** The next [k] requests meet no transport fault. *)
Definition fault_free (k : nat) (s : Server) : Prop :=
  forallb negb (firstn k (srv_faults s)) = true.

(** The world [w] after the calls [cs] left the process, nothing else
    changed. *)
Definition after_calls (cs : list Call) (w : World) : World :=
  {| current_model := current_model w; active_session := active_session w;
     server := server w; trace := trace w ++ cs |}.

(** ** Sample configurations and worlds *)

Module Sample.

Definition srv : Server :=
  {| srv_sessions := []; srv_status := []; srv_agents := [];
     srv_created := 0; srv_faults := [] |}.

(** The world at startup: no model chosen, no session bound, nothing
    sent. *)
Definition w0 : World :=
  {| current_model := None; active_session := None; server := srv; trace := [] |}.

(** The default settings of [config.py], for a user [@codebeep:example.org]. *)
Definition cfg : Config :=
  {| prefix := "/"; typing_indicator := true; max_message_length := 4000;
     unknown_command_reply := true; allowed_users := [];
     username := "@codebeep:example.org" |}.

(** The same with messages cut at three characters. *)
Definition cfg3 : Config :=
  {| prefix := "/"; typing_indicator := true; max_message_length := 3;
     unknown_command_reply := true; allowed_users := [];
     username := "@codebeep:example.org" |}.

(** The same with an allow-list of one user. *)
Definition cfg_alice : Config :=
  {| prefix := "/"; typing_indicator := true; max_message_length := 4000;
     unknown_command_reply := true; allowed_users := ["@alice:example.org"];
     username := "@codebeep:example.org" |}.

Definition bot_of (c : Config) : Bot :=
  {| config := c; commands := init_commands;
     is_not_from_this_bot := fun _ e => Ok (negb (bool_decide (sender e = Some (username c)))) |}.

Definition text (from body_ : string) : Event :=
  {| sender := Some from; body := Some body_; source_body := None |}.

(** A session the server holds, and a world whose binding caches it. *)
Definition ses : Session.t :=
  {| Session.id := "ses_0"; Session.title := Some "codebeep mobile session";
     Session.parent_id := None; Session.created_at := "0";
     Session.updated_at := "0"; Session.share := None |}.

Definition srv1 : Server :=
  {| srv_sessions := [ses]; srv_status := []; srv_agents := [];
     srv_created := 1; srv_faults := [] |}.

Definition w_cached : World :=
  {| current_model := None; active_session := Some ses; server := srv1; trace := [] |}.

(** The same binding after the server lost the session. *)
Definition srv_lost : Server :=
  {| srv_sessions := []; srv_status := []; srv_agents := [];
     srv_created := 1; srv_faults := [] |}.

Definition w_stale : World :=
  {| current_model := None; active_session := Some ses; server := srv_lost; trace := [] |}.

(** A stand-in for [json.loads] to run examples with: a text that opens
    with a brace is a value, yielded as it is; a text that opens with a
    bracket stands for one nested too deep; any other text does not
    parse. *)
Definition loads (data : string) : Loaded string :=
  if String.prefix "{" data then Value data
  else if String.prefix "[" data then OtherException "RecursionError"
       else JSONDecodeError.

End Sample.

(** The usage line the handler of a command with a required argument
    prints when the argument is missing. *)
Definition usage_hint (c : CommandClass) : string :=
  match c with
  | BuildCommand => "Usage: /build <task>"
  | PlanCommand => "Usage: /plan <request>"
  | _ => EmptyString
  end.

(** The server as the next request finds it: the fault schedule moved on. *)
Definition tick (s : Server) : Server := snd (next_fault s).

(** The binding caches a session the server still holds. *)
Definition binding_live (w : World) : bool :=
  match active_session w with
  | Some cached =>
      match find_session (Session.id cached) (srv_sessions (server w)) with
      | Some _ => true
      | None => false
      end
  | None => false
  end.

(** The two requests of the binding. *)
Definition verification (sid : string) : Call :=
  HttpGet get_session_ ("/session/" +:+ sid).

Definition creation : Call :=
  HttpPost create_session_ "/session"
           (Some (create_session_body (Some "codebeep mobile session") None)).

(** Every call the computation [m] adds to the trace satisfies [P]. *)
Definition emits {A} (P : Call -> Prop) (m : M A) : Prop :=
  forall w, exists cs, trace (snd (m w)) = trace w ++ cs /\ Forall P cs.

(** The computation [m] neither reads nor writes [current_model]: run with
    another preference, it gives the same result in the same world, but for
    that preference. *)
Definition ignores_model {A} (m : M A) : Prop :=
  forall mo w,
    m (set_current_model mo w) = (fst (m w), set_current_model mo (snd (m w))).

(** A request of [send_message_async] whose body has no ["model"]. *)
Definition sends_no_model (c : Call) : Prop :=
  match c with
  | HttpPost send_message_async_ _ (Some b) => b !! "model" = None
  | _ => True
  end.

(** ** bot.py: the stages of [handle_message], on their own *)

(** The guards and the tokenizer of [handle_message], up to the lookup:
    the lower-cased command token and the arguments of a message that gets
    that far, [None] for a message that is dropped before. *)
Definition parse_message (bot : Bot) (room_id : string) (event : Event)
  : option (string * string) :=
  let cfg := config bot in
  match sender event with
  | None => None
  | Some sender_ =>
      if negb (Str.truthy sender_) then None else
      let body_ := match body event with
                   | Some b => b
                   | None => default EmptyString (source_body event)
                   end in
      if negb (Str.truthy body_) then None else
      let from_bot := match is_not_from_this_bot bot room_id event with
                      | Ok b => negb b
                      | Raise _ => String.eqb sender_ (username cfg)
                      end in
      if from_bot then None else
      if negb (is_user_allowed cfg sender_) then None else
      if negb (Str.startswith body_ (prefix cfg)) then None else
      match Str.split1 (Str.drop (String.length (prefix cfg)) body_) with
      | [] => None
      | token :: rest =>
          Some (Str.lower token,
                match rest with
                | a :: _ => a
                | [] => EmptyString
                end)
      end
  end.

(** What [handle_message] does with a parsed message: the lookup, the
    reply to an unknown command, the run of a known one. *)
Definition dispatch (bot : Bot) (room_id cmd_name args : string) : M unit :=
  let cfg := config bot in
  match Dict.get cmd_name (commands bot) with
  | None =>
      when (unknown_command_reply cfg)
        (send_text_message room_id
           ("Unknown command: " +:+ cmd_name +:+ Str.LF
            +:+ "Use /help to see available commands."))
  | Some cmd =>
      when (typing_indicator cfg) (room_typing room_id true) ;;
      try_finally
        (try_except
           (r <- execute cmd bot args ;; _send_result cfg room_id r)
           (fun e => send_text_message room_id
                       ("Error executing command: " +:+ exn_str e)))
        (when (typing_indicator cfg) (room_typing room_id false))
  end.

(** The guards and the tokenizer of [handle_message] with the command
    token as it is written, before the lookup lower-cases it. *)
Definition tokenize (bot : Bot) (room_id : string) (event : Event)
  : option (string * string) :=
  let cfg := config bot in
  match sender event with
  | None => None
  | Some sender_ =>
      if negb (Str.truthy sender_) then None else
      let body_ := match body event with
                   | Some b => b
                   | None => default EmptyString (source_body event)
                   end in
      if negb (Str.truthy body_) then None else
      let from_bot := match is_not_from_this_bot bot room_id event with
                      | Ok b => negb b
                      | Raise _ => String.eqb sender_ (username cfg)
                      end in
      if from_bot then None else
      if negb (is_user_allowed cfg sender_) then None else
      if negb (Str.startswith body_ (prefix cfg)) then None else
      match Str.split1 (Str.drop (String.length (prefix cfg)) body_) with
      | [] => None
      | token :: rest =>
          Some (token,
                match rest with
                | a :: _ => a
                | [] => EmptyString
                end)
      end
  end.

(** What [handle_message] does with the command the lookup found: the
    typing notice around the handler and the delivery of its result. *)
Definition run_command (bot : Bot) (room_id : string) (cmd : Command)
           (args : string) : M unit :=
  let cfg := config bot in
  when (typing_indicator cfg) (room_typing room_id true) ;;
  try_finally
    (try_except
       (r <- execute cmd bot args ;; _send_result cfg room_id r)
       (fun e => send_text_message room_id
                   ("Error executing command: " +:+ exn_str e)))
    (when (typing_indicator cfg) (room_typing room_id false)).

(** What [handle_message] does with a token the lookup misses. *)
Definition unknown_reply (bot : Bot) (room_id cmd_name : string) : M unit :=
  when (unknown_command_reply (config bot))
    (send_text_message room_id
       ("Unknown command: " +:+ cmd_name +:+ Str.LF
        +:+ "Use /help to see available commands.")).

(** The text [handle_message] takes for the body of an event. *)
Definition body_of (event : Event) : string :=
  match body event with
  | Some b => b
  | None => default EmptyString (source_body event)
  end.

(** A request to the control-plane. *)
Definition is_http (c : Call) : bool :=
  match c with
  | HttpGet _ _ | HttpPost _ _ _ => true
  | _ => false
  end.

(** A message to the room [room_id]. *)
Definition is_message_to (room_id : string) (c : Call) : bool :=
  match c with
  | send_text_message_ r _ | send_markdown_message_ r _ => String.eqb r room_id
  | _ => false
  end.

(** ** opencode_client.py: the connection handle *)

Module Client.

(** [base_url.rstrip("/")] *)
Fixpoint rstrip_slash (s : string) : string :=
  match s with
  | EmptyString => EmptyString
  | String c s' =>
      match rstrip_slash s' with
      | EmptyString => if Ascii.eqb c "/" then EmptyString else String c EmptyString
      | r => String c r
      end
  end.

(** The client object.  A handle is known by its number; [opened] counts
    the handles made so far, [closed] lists the handles that are closed,
    by [close] or by anyone else who holds them. *)
Record t := {
  base_url : string;
  _client : option nat;
  opened : nat;
  closed : list nat
}.

(** [OpenCodeClient(base_url)] *)
Definition init (url : string) : t :=
  {| base_url := rstrip_slash url; _client := None; opened := 0; closed := [] |}.

(** [self._client.is_closed] *)
Definition is_closed (c : t) (h : nat) : bool := existsb (Nat.eqb h) (closed c).

(** [_get_client]: the handle to use, and the client after the call. *)
Definition _get_client (c : t) : nat * t :=
  let fresh := (opened c,
                {| base_url := base_url c; _client := Some (opened c);
                   opened := S (opened c); closed := closed c |}) in
  match _client c with
  | None => fresh
  | Some h => if is_closed c h then fresh else (h, c)
  end.

(** [close] *)
Definition close (c : t) : t :=
  match _client c with
  | Some h => {| base_url := base_url c; _client := None;
                 opened := opened c; closed := h :: closed c |}
  | None => c
  end.

(** Every handle that exists was made by this client. *)
Definition wf (c : t) : Prop :=
  (forall h, In h (closed c) -> h < opened c)
  /\ (forall h, _client c = Some h -> h < opened c).

End Client.

(** ** opencode_client.py: the optional parts of the other requests *)

(** [params] of [get_messages]: [if limit: params["limit"] = limit]. *)
Definition get_messages_params (limit : option Z) : gmap string Z :=
  match limit with
  | Some n => if (n =? 0)%Z then ∅ else {[ "limit" := n ]}
  | None => ∅
  end.

(** [params] of [get_diff]: [if message_id: params["messageID"] = message_id]. *)
Definition get_diff_params (message_id : option string) : gmap string string :=
  match message_id with
  | Some m => if Str.truthy m then {[ "messageID" := m ]} else ∅
  | None => ∅
  end.

(** The request body of [execute_command]. *)
Definition execute_command_body (command arguments : string)
           (agent model : option string) : gmap string Json :=
  let body : gmap string Json :=
    <["arguments" := JStr arguments]> {[ "command" := JStr command ]} in
  let body := match agent with
              | Some a => if Str.truthy a then <["agent" := JStr a]> body else body
              | None => body
              end in
  let body := match model with
              | Some m => if Str.truthy m then <["model" := JStr m]> body else body
              | None => body
              end in
  body.

(** ** bot.py: the event monitor *)

(** A JSON value as [json.loads] gives it; a number is kept as it is
    written, a dict as its items, keys distinct. *)
#[warnings="-register-all"]
Inductive JVal :=
| VNull
| VBool (b : bool)
| VNum (literal : string)
| VStr (s : string)
| VList (l : list JVal)
| VDict (items : list (string * JVal)).

(** [v.get(key, dflt)]: [None] stands for the [AttributeError] of a value
    that is no dict. *)
Definition jget (v : JVal) (key : string) (dflt : JVal) : option JVal :=
  match v with
  | VDict items => Some (default dflt (Dict.get key items))
  | _ => None
  end.

(** [v == text] for a string [text]. *)
Definition is_str (v : JVal) (text : string) : bool :=
  match v with
  | VStr s => String.eqb s text
  | _ => false
  end.

(** The body of the loop of [_monitor_events] for one event: [None] when
    it raises, else the session id whose completion it logs, if any. *)
Definition monitor_event (event : JVal) : option (option JVal) :=
  match jget event "type" (VStr EmptyString) with
  | None => None
  | Some event_type =>
      if is_str event_type "session.message" then
        match jget event "sessionID" VNull, jget event "message" (VDict []) with
        | Some session_id, Some message_data =>
            match jget message_data "info" (VDict []) with
            | None => None
            | Some info =>
                match jget info "role" VNull with
                | None => None
                | Some role =>
                    if is_str role "assistant" then Some (Some session_id)
                    else Some None
                end
            end
        | _, _ => None
        end
      else Some None
  end.

(** [_monitor_events] over the events the stream yields: the session ids
    logged as completed, in order, and whether the loop ended by an
    exception ([true]) or with the stream ([false]). *)
Fixpoint _monitor_events (events : list JVal) : list JVal * bool :=
  match events with
  | [] => ([], false)
  | event :: events' =>
      match monitor_event event with
      | None => ([], true)
      | Some logged =>
          let (ids, crashed) := _monitor_events events' in
          (match logged with
           | Some sid => sid :: ids
           | None => ids
           end, crashed)
      end
  end.

(** ** config.py: [_expand_env_vars] *)

(** The data [yaml.safe_load] gives: dicts, lists, strings, and the other
    scalars, which are kept as they are written. *)
#[warnings="-register-all"]
Inductive Yaml :=
| YDict (items : list (string * Yaml))
| YList (l : list Yaml)
| YStr (s : string)
| YScalar (literal : string).

Section ExpandEnvVars.
(** [os.path.expandvars], from the standard library. *)
Variable expandvars : string -> string.

Fixpoint _expand_env_vars (data : Yaml) : Yaml :=
  match data with
  | YDict items =>
      YDict (map (fun kv => match kv with
                            | (k, v) => (k, _expand_env_vars v)
                            end) items)
  | YList l => YList (map _expand_env_vars l)
  | YStr s => YStr (expandvars s)
  | YScalar x => YScalar x
  end.
End ExpandEnvVars.

(** The strings among the values of [data], at any depth. *)
Fixpoint value_strings (data : Yaml) : list string :=
  match data with
  | YDict items => flat_map (fun kv => value_strings (snd kv)) items
  | YList l => flat_map value_strings l
  | YStr s => [s]
  | YScalar _ => []
  end.

(** The keys of the dicts of [data], at any depth. *)
Fixpoint all_keys (data : Yaml) : list string :=
  match data with
  | YDict items => flat_map (fun kv => fst kv :: all_keys (snd kv)) items
  | YList l => flat_map all_keys l
  | YStr _ => []
  | YScalar _ => []
  end.

(** What a registry keeps, whatever is registered in it: its keys are
    distinct, a key resolves to an instance of a registered class that
    declares it, and the aliases of every instance it holds are keys. *)
Definition registry_inv (classes : list CommandClass) (d : Dict.t Command) : Prop :=
  NoDup (Dict.keys d)
  /\ (forall k c, Dict.get k d = Some c ->
        In k (name c :: aliases c) /\ In (cls c) classes)
  /\ (forall k0 c a, Dict.get k0 d = Some c -> In a (aliases c) ->
        In a (Dict.keys d)).

(** * Properties *)

(** ** The registry *)

Section Registry.

Lemma lower_upper_char (c : ascii) :
  Str.lower_char (Str.upper_char c) = Str.lower_char c.
Proof. destruct c as [[] [] [] [] [] [] [] []]; reflexivity. Qed.

Lemma lower_lower_char (c : ascii) :
  Str.lower_char (Str.lower_char c) = Str.lower_char c.
Proof. destruct c as [[] [] [] [] [] [] [] []]; reflexivity. Qed.

Lemma casing_lower (t s : string) :
  Str.is_casing_of t s = true -> Str.lower t = Str.lower s.
Proof.
  revert s; induction t as [|a t IH]; intros [|b s]; simpl; try discriminate; auto.
  intros H. apply andb_prop in H as [Hc Ht].
  rewrite (IH _ Ht). f_equal.
  apply orb_prop in Hc as [Hc|Hc]; [apply orb_prop in Hc as [Hc|Hc]|];
    apply Ascii.eqb_eq in Hc; subst a;
    auto using lower_upper_char, lower_lower_char.
Qed.

(** Every key of the registry is in lower case already. *)
Lemma registry_keys_lower :
  Forall (fun k => Str.lower k = k) (Dict.keys init_commands).
Proof. vm_compute. repeat constructor. Qed.

(** Every registered instance sits under its name and each alias. *)
Lemma registry_entries (cmd : Command) :
  In cmd (Dict.values init_commands) ->
  Forall (fun k => Str.lower k = k /\ Dict.get k init_commands = Some cmd)
         (name cmd :: aliases cmd).
Proof.
  intros H. vm_compute in H.
  repeat (destruct H as [<-|H]; [vm_compute; repeat constructor|]).
  destruct H.
Qed.

(** The dispatcher finds its command by [lookup]: a message that passes
    the guards is tokenized, the token is looked up, and the command found
    is run with the rest of the message. *)
Lemma handle_message_lookup (bot : Bot) (room_id : string) (event : Event) :
  handle_message bot room_id event
  = match tokenize bot room_id event with
    | Some (token, args) =>
        match lookup (commands bot) token with
        | Some cmd => run_command bot room_id cmd args
        | None => unknown_reply bot room_id (Str.lower token)
        end
    | None => ret tt
    end.
Proof.
  unfold handle_message, tokenize, lookup, run_command, unknown_reply.
  destruct (sender event) as [s|]; [|reflexivity].
  repeat match goal with
         | |- context [if ?b then _ else _] => destruct b; try reflexivity
         end;
    destruct (Str.split1 _) as [|token rest]; try reflexivity;
    destruct (Dict.get (Str.lower token) (commands bot)); reflexivity.
Qed.

(** C5. Command lookup is case-insensitive and alias-transparent: for
    every command instance the registry holds, looking up its name, its
    name in any letter-casing, each of its aliases, and each alias in any
    letter-casing, all yield that same instance; and the dispatcher, given a
    message whose command token is the name or an alias of the instance in
    any letter-casing, runs that instance. *)
Theorem lookup_case_insensitive_alias_transparent (cmd : Command) :
  In cmd (Dict.values init_commands) ->
  lookup init_commands (name cmd) = Some cmd
  /\ (forall t, Str.is_casing_of t (name cmd) = true ->
      lookup init_commands t = Some cmd)
  /\ (forall a, In a (aliases cmd) -> lookup init_commands a = Some cmd)
  /\ (forall a t, In a (aliases cmd) -> Str.is_casing_of t a = true ->
      lookup init_commands t = Some cmd)
  /\ (forall (cfg : Config) (mm : string -> Event -> Res bool) (room_id : string)
             (event : Event) (token args k : string) (w : World),
        tokenize {| config := cfg; commands := init_commands;
                    is_not_from_this_bot := mm |} room_id event
        = Some (token, args) ->
        In k (name cmd :: aliases cmd) ->
        Str.is_casing_of token k = true ->
        handle_message {| config := cfg; commands := init_commands;
                          is_not_from_this_bot := mm |} room_id event w
        = run_command {| config := cfg; commands := init_commands;
                         is_not_from_this_bot := mm |} room_id cmd args w).
Proof.
  intros Hin. pose proof (registry_entries cmd Hin) as Hall.
  rewrite Forall_forall in Hall.
  assert (Hkey : forall k t, In k (name cmd :: aliases cmd) ->
                   Str.lower t = Str.lower k -> lookup init_commands t = Some cmd).
  { intros k t Hk Ht. apply list_elem_of_In in Hk.
    destruct (Hall k Hk) as [Hlow Hget].
    unfold lookup. rewrite Ht, Hlow. exact Hget. }
  repeat split.
  - apply (Hkey (name cmd)); [left|]; reflexivity.
  - intros t Ht. apply (Hkey (name cmd)); [now left|now apply casing_lower].
  - intros a Ha. apply (Hkey a); [now right|reflexivity].
  - intros a t Ha Ht. apply (Hkey a); [now right|now apply casing_lower].
  - intros cfg mm room_id event token args k w Htok Hk Hcase.
    rewrite handle_message_lookup, Htok. cbn [commands].
    now rewrite (Hkey k token Hk (casing_lower _ _ Hcase)).
Qed.

Lemma lookup_case_insensitive_alias_transparent_witness :
  lookup init_commands "BuIlD" = Some {| oid := 0; cls := BuildCommand |}
  /\ lookup init_commands "code" = Some {| oid := 0; cls := BuildCommand |}
  /\ lookup init_commands "Do" = Some {| oid := 0; cls := BuildCommand |}
  /\ handle_message (Sample.bot_of Sample.cfg) "!room"
       (Sample.text "@alice:example.org" "/CoDe fix the login bug") Sample.w0
     = run_command (Sample.bot_of Sample.cfg) "!room"
         {| oid := 0; cls := BuildCommand |} "fix the login bug" Sample.w0.
Proof.
  assert (Hin : In {| oid := 0; cls := BuildCommand |} (Dict.values init_commands))
    by (vm_compute; auto).
  destruct (lookup_case_insensitive_alias_transparent _ Hin)
    as (_ & H1 & H2 & H3 & H4).
  split; [|split; [|split]].
  - apply H1. reflexivity.
  - apply H2. simpl. auto.
  - apply (H3 "do"); [simpl; auto|reflexivity].
  - apply (H4 Sample.cfg (is_not_from_this_bot (Sample.bot_of Sample.cfg)) "!room"
              (Sample.text "@alice:example.org" "/CoDe fix the login bug")
              "CoDe" "fix the login bug" "code" Sample.w0).
    + reflexivity.
    + simpl. auto.
    + reflexivity.
Defined.

(** The general help has one line per key of the registry: a command
    appears once for its name and once more for each alias. *)
Lemma help_lines_per_key (cmd : Command) :
  In cmd (Dict.values init_commands) ->
  count_occ string_dec (help_lines init_commands) (help_line cmd)
  = S (length (aliases cmd)).
Proof.
  intros H. vm_compute in H.
  repeat (destruct H as [<-|H]; [vm_compute; reflexivity|]).
  destruct H.
Qed.

(** C2. The help command without arguments, on the registry [__init__]
    builds, succeeds with the joined [help_lines], which hold the line of
    the build command four times (its name and three aliases) and
    twenty-four command lines for the eight commands. *)
Theorem help_lists_build_four_times (cfg : Config) (mm : string -> Event -> Res bool)
        (w : World) :
  let bot := {| config := cfg; commands := init_commands;
                is_not_from_this_bot := mm |} in
  HelpCommand_execute bot EmptyString w
  = (Ok (result true (Str.join Str.LF (help_lines init_commands))), w)
  /\ count_occ string_dec (help_lines init_commands)
               (help_line {| oid := 0; cls := BuildCommand |}) = 4
  /\ length (Dict.values init_commands) = 24
  /\ length ALL_COMMANDS = 8.
Proof. repeat split. Qed.

End Registry.

(** ** The client: request bodies *)

Section Client.

Lemma create_session_body_title (title parent_id : option string) :
  create_session_body title parent_id !! "title"
  = match title with
    | Some t => if Str.truthy t then Some (JStr t) else None
    | None => None
    end.
Proof.
  unfold create_session_body.
  destruct title as [[|c t]|], parent_id as [[|d p]|]; simpl;
    repeat (rewrite lookup_insert_ne by discriminate);
    rewrite ?lookup_insert_eq, ?lookup_empty; reflexivity.
Qed.

Lemma create_session_body_parent (title parent_id : option string) :
  create_session_body title parent_id !! "parentID"
  = match parent_id with
    | Some p => if Str.truthy p then Some (JStr p) else None
    | None => None
    end.
Proof.
  unfold create_session_body.
  destruct title as [[|c t]|], parent_id as [[|d p]|]; simpl;
    repeat (rewrite lookup_insert_ne by discriminate);
    rewrite ?lookup_insert_eq, ?lookup_empty; reflexivity.
Qed.

(** C10. [create_session] leaves an optional field out of the request body
    whenever its argument is falsy: the empty title and the absent title
    give the same body, without ["title"], and the same exchange with the
    server; likewise the empty and the absent parent id, without
    ["parentID"]. *)
Theorem create_session_omits_falsy (title parent_id : option string) (w : World) :
  create_session_body (Some EmptyString) parent_id = create_session_body None parent_id
  /\ create_session_body None parent_id !! "title" = None
  /\ create_session (Some EmptyString) parent_id w = create_session None parent_id w
  /\ create_session_body title (Some EmptyString) = create_session_body title None
  /\ create_session_body title None !! "parentID" = None
  /\ create_session title (Some EmptyString) w = create_session title None w.
Proof.
  repeat split; try reflexivity.
  - apply create_session_body_title.
  - apply create_session_body_parent.
Qed.

End Client.

(** ** Result delivery *)

Section Delivery.

Lemma append_cons (c : ascii) (s t : string) :
  String c s +:+ t = String c (s +:+ t).
Proof. reflexivity. Qed.

Lemma append_empty_l (t : string) : EmptyString +:+ t = t.
Proof. reflexivity. Qed.

Lemma append_empty_r (s : string) : s +:+ EmptyString = s.
Proof.
  induction s as [|c s IH]; [reflexivity|].
  now rewrite append_cons, IH.
Qed.

Lemma drop_all (s : string) :
  forall j, (String.length s <= j)%nat -> Str.drop j s = EmptyString.
Proof.
  induction s as [|c s IH]; intros [|j] H; simpl in *; auto; try lia.
  apply IH. lia.
Qed.

Lemma substring_drop (s : string) :
  forall i k, String.substring i k s +:+ Str.drop (i + k) s = Str.drop i s.
Proof.
  induction s as [|c s IH]; intros [|i] [|k]; simpl;
    rewrite ?append_cons, ?append_empty_l; auto.
  f_equal. apply (IH 0%nat k).
Qed.

Lemma length_substring (s : string) :
  forall i k,
    String.length (String.substring i k s) = Nat.min k (String.length s - i).
Proof.
  induction s as [|c s IH]; intros [|i] [|k]; simpl; auto.
  rewrite (IH 0%nat k). f_equal. f_equal. lia.
Qed.

Lemma for_each_send (room_id : string) (l : list string) :
  forall w,
    for_each (send_markdown_message room_id) l w
    = (Ok tt, after_calls (map (send_markdown_message_ room_id) l) w).
Proof.
  induction l as [|x l IH]; intros w; simpl.
  - unfold ret, after_calls. destruct w; simpl. now rewrite app_nil_r.
  - unfold bind, send_markdown_message, chat. rewrite IH.
    unfold after_calls, log; simpl. now rewrite <- app_assoc.
Qed.

(** The chunks of one message [s] for a positive chunk length [m]. *)
Variables (s : string) (m : Z).
Hypothesis m_pos : (0 < m)%Z.

Lemma chunk_substring (i : Z) :
  (0 <= i <= len s)%Z ->
  slice s i (i + m)
  = String.substring (Z.to_nat i) (Z.to_nat (Z.min (i + m) (len s) - i)) s.
Proof.
  intros Hi. unfold slice, slice_bound.
  destruct (Z.ltb_spec i 0); [lia|].
  destruct (Z.ltb_spec (i + m) 0); [lia|].
  rewrite (Z.min_l i (len s)) by lia. reflexivity.
Qed.

Lemma range_up_nth (fuel : nat) :
  forall i k x,
    nth_error (range_up fuel i (len s) m) k = Some x ->
    (x = i + Z.of_nat k * m /\ x < len s)%Z.
Proof.
  induction fuel as [|fuel IH]; intros i k x; simpl.
  - destruct k; discriminate.
  - destruct (Z.ltb_spec i (len s)); [|destruct k; discriminate].
    destruct k as [|k]; simpl.
    + intros [= <-]. lia.
    + intros H'. apply IH in H'. lia.
Qed.

Lemma range_up_length (fuel : nat) :
  forall i,
    (0 <= i)%Z -> (len s - i <= Z.of_nat fuel)%Z ->
    Z.of_nat (length (range_up fuel i (len s) m))
    = Z.max 0 ((len s - i + m - 1) / m).
Proof.
  assert (Hdone : forall i, (len s <= i)%Z ->
                    Z.max 0 ((len s - i + m - 1) / m) = 0%Z).
  { intros i Hi. apply Z.max_l.
    assert ((len s - i + m - 1) / m < 1)%Z by (apply Z.div_lt_upper_bound; lia).
    lia. }
  induction fuel as [|fuel IH]; intros i Hi Hf; simpl.
  - now rewrite Hdone by lia.
  - destruct (Z.ltb_spec i (len s)); [|now rewrite Hdone by lia].
    cbn [length]. rewrite Nat2Z.inj_succ, IH by lia.
    replace (len s - i + m - 1)%Z with ((len s - i - 1) + 1 * m)%Z by lia.
    rewrite Z.div_add by lia.
    replace (len s - (i + m) + m - 1)%Z with (len s - i - 1)%Z by lia.
    assert (0 <= (len s - i - 1) / m)%Z by (apply Z.div_pos; lia).
    lia.
Qed.

Lemma chunks_concat (fuel : nat) :
  forall i,
    (0 <= i)%Z -> (len s - i <= Z.of_nat fuel)%Z ->
    Str.concat (map (fun i => slice s i (i + m)) (range_up fuel i (len s) m))
    = Str.drop (Z.to_nat i) s.
Proof.
  assert (Hn : len s = Z.of_nat (String.length s)) by reflexivity.
  induction fuel as [|fuel IH]; intros i Hi Hf; simpl.
  - symmetry. apply drop_all. lia.
  - destruct (Z.ltb_spec i (len s)); [|symmetry; apply drop_all; lia].
    simpl. rewrite IH by lia. rewrite chunk_substring by lia.
    destruct (Z.le_gt_cases (i + m) (len s)).
    + rewrite Z.min_l by lia.
      replace (i + m - i)%Z with m by lia.
      rewrite Z2Nat.inj_add by lia. apply substring_drop.
    + rewrite Z.min_r by lia.
      rewrite (drop_all s (Z.to_nat (i + m))) by lia.
      rewrite <- (substring_drop s (Z.to_nat i) (Z.to_nat (len s - i))).
      f_equal. symmetry. apply drop_all. lia.
Qed.

Lemma chunk_length (i : Z) :
  (0 <= i < len s)%Z -> len (slice s i (i + m)) = Z.min m (len s - i).
Proof.
  intros Hi. rewrite chunk_substring by lia.
  unfold len at 1. rewrite length_substring.
  assert (Hn : len s = Z.of_nat (String.length s)) by reflexivity. lia.
Qed.

End Delivery.

(** C3. For a positive [max_message_length], [_send_result] sends the
    message as a list of chunks, in order, whose concatenation is the message;
    a message no longer than the limit is one chunk, a longer one of length
    [L] is [ceil(L / max)] chunks, each of the limit's length but possibly the
    last, which is not empty. *)
Theorem send_result_round_trip (cfg : Config) (room_id : string)
        (r : CommandResult.t) (w : World) :
  (0 < max_message_length cfg)%Z ->
  exists chunks : list string,
    _send_result cfg room_id r w
    = (Ok tt, after_calls (map (send_markdown_message_ room_id) chunks) w)
    /\ Str.concat chunks = message r
    /\ ((len (message r) <= max_message_length cfg)%Z -> chunks = [message r])
    /\ ((max_message_length cfg < len (message r))%Z ->
        Z.of_nat (length chunks)
        = ((len (message r) + max_message_length cfg - 1) / max_message_length cfg)%Z
        /\ ((Z.of_nat (length chunks) - 1) * max_message_length cfg < len (message r)
            <= Z.of_nat (length chunks) * max_message_length cfg)%Z
        /\ forall k c, nth_error chunks k = Some c ->
             (0 < len c <= max_message_length cfg)%Z
             /\ ((S k < length chunks)%nat -> len c = max_message_length cfg)).
Proof.
  intros Hm. unfold _send_result.
  set (msg := message r). set (m := max_message_length cfg) in *.
  set (L := len msg).
  destruct (Z.ltb_spec m L) as [Hlong|Hshort].
  - unfold parts, range. fold L.
    destruct (Z.eqb_spec m 0) as [?|_]; [lia|].
    destruct (Z.ltb_spec 0 m) as [_|?]; [|lia].
    set (idx := range_up (Z.to_nat (L - 0)) 0 L m).
    exists (map (fun i => slice msg i (i + m)) idx).
    assert (Hlen : Z.of_nat (length idx) = ((L + m - 1) / m)%Z).
    { unfold idx, L. rewrite (range_up_length msg m Hm) by lia.
      rewrite Z.sub_0_r. apply Z.max_r. apply Z.div_pos; unfold len; lia. }
    split; [|split; [|split]].
    + unfold bind, lift. apply for_each_send.
    + unfold idx, L. rewrite (chunks_concat msg m Hm) by lia. reflexivity.
    + intros ?. lia.
    + intros _. rewrite length_map. split; [exact Hlen|]. split.
      * rewrite Hlen.
        pose proof (Z.div_mod (L + m - 1) m ltac:(lia)) as Hdm.
        pose proof (Z.mod_pos_bound (L + m - 1) m Hm) as Hmod. nia.
      * intros k c Hk. rewrite nth_error_map in Hk.
        destruct (nth_error idx k) as [x|] eqn:Hx; [|discriminate].
        injection Hk as <-.
        apply (range_up_nth msg m) in Hx as Hx'. destruct Hx' as [Hxv Hxn].
        rewrite (chunk_length msg m Hm) by (fold L; lia). fold L.
        split; [lia|]. intros Hnext.
        destruct (nth_error idx (S k)) as [y|] eqn:Hy.
        -- apply (range_up_nth msg m) in Hy. fold L in Hy. lia.
        -- apply nth_error_None in Hy. lia.
  - exists [msg]. split; [|split; [|split]].
    + reflexivity.
    + simpl. apply append_empty_r.
    + reflexivity.
    + intros ?. lia.
Qed.

Lemma send_result_round_trip_witness :
  exists chunks : list string,
    _send_result Sample.cfg3 "!room" (result true "abcdefghij") Sample.w0
    = (Ok tt, after_calls (map (send_markdown_message_ "!room") chunks) Sample.w0)
    /\ Str.concat chunks = "abcdefghij"
    /\ Z.of_nat (length chunks) = 4%Z.
Proof.
  destruct (send_result_round_trip Sample.cfg3 "!room" (result true "abcdefghij")
              Sample.w0) as (chunks & Hrun & Hcat & _ & Hlong).
  - reflexivity.
  - exists chunks. split; [exact Hrun|]. split; [exact Hcat|].
    destruct Hlong as (Hn & _); [reflexivity|]. exact Hn.
Defined.

(** ** The dispatcher: authorization *)

Section Authorization.

Lemma existsb_eqb_In (u : string) (l : list string) :
  existsb (String.eqb u) l = true <-> In u l.
Proof.
  rewrite existsb_exists. split.
  - intros (x & Hx & He). apply String.eqb_eq in He. now subst.
  - intros H. exists u. split; [exact H|apply String.eqb_refl].
Qed.

Lemma is_user_allowed_spec (cfg : Config) (u : string) :
  is_user_allowed cfg u = true
  <-> allowed_users cfg = [] \/ In u (allowed_users cfg).
Proof.
  unfold is_user_allowed. destruct (allowed_users cfg) as [|a l] eqn:E.
  - split; auto.
  - rewrite existsb_eqb_In. split; [auto|]. intros [H|H]; [discriminate|exact H].
Qed.

(** C8. A sender who is not on a non-empty allow-list gets nothing: the
    dispatcher returns with the world as it was, so no chat reply, no
    typing notice and no control-plane request leaves the process,
    whatever the message says; with an empty allow-list every sender is
    allowed. *)
Theorem unauthorized_sender_no_call (bot : Bot) (room_id : string)
        (event : Event) (w : World) :
  (forall s,
      sender event = Some s ->
      allowed_users (config bot) <> [] ->
      ~ In s (allowed_users (config bot)) ->
      handle_message bot room_id event w = (Ok tt, w))
  /\ (allowed_users (config bot) = [] ->
      forall u, is_user_allowed (config bot) u = true).
Proof.
  split.
  - intros s Hs Hne Hnot.
    assert (Hdeny : is_user_allowed (config bot) s = false).
    { apply not_true_is_false. rewrite is_user_allowed_spec. tauto. }
    unfold handle_message. rewrite Hs, Hdeny.
    destruct (Str.truthy s); [|reflexivity]. cbn [negb].
    repeat match goal with
           | |- context [if ?b then _ else _] => destruct b
           end; reflexivity.
  - intros Hnil u. apply is_user_allowed_spec. now left.
Qed.

Lemma unauthorized_sender_no_call_witness :
  handle_message (Sample.bot_of Sample.cfg_alice) "!room"
                 (Sample.text "@mallory:example.org" "/build x") Sample.w0
  = (Ok tt, Sample.w0)
  /\ is_user_allowed (config (Sample.bot_of Sample.cfg)) "@mallory:example.org" = true.
Proof.
  split.
  - apply (proj1 (unauthorized_sender_no_call (Sample.bot_of Sample.cfg_alice) "!room"
                    (Sample.text "@mallory:example.org" "/build x") Sample.w0)
                 "@mallory:example.org").
    + reflexivity.
    + discriminate.
    + simpl. intros [H|[]]. discriminate H.
  - apply (proj2 (unauthorized_sender_no_call (Sample.bot_of Sample.cfg) "!room"
                    (Sample.text "@mallory:example.org" "/build x") Sample.w0)).
    reflexivity.
Defined.

End Authorization.

(** ** The event stream *)

Section EventStream.
Context {Ev : Type} (json_loads : string -> Loaded Ev).

Lemma events_of_app (l1 l2 : list string) :
  events_of json_loads (l1 ++ l2)
  = match snd (events_of json_loads l1) with
    | Exhausted =>
        (fst (events_of json_loads l1) ++ fst (events_of json_loads l2),
         snd (events_of json_loads l2))
    | _ => events_of json_loads l1
    end.
Proof.
  induction l1 as [|x l1 IH]; simpl.
  - now destruct (events_of json_loads l2).
  - destruct (event_of_line json_loads x); [|exact IH|reflexivity].
    rewrite IH. destruct (events_of json_loads l1) as [es1 [| |]]; simpl;
      reflexivity.
Qed.

(** The events are what resuming the generator again and again yields. *)
Lemma events_of_anext (lines : list string) :
  events_of json_loads lines
  = match anext json_loads lines with
    | Next e rest =>
        (e :: fst (events_of json_loads rest), snd (events_of json_loads rest))
    | StopAsyncIteration => ([], Exhausted)
    | Propagates what => ([], LoadsError what)
    end.
Proof.
  induction lines as [|x l IH]; simpl; [reflexivity|].
  destruct (event_of_line json_loads x); [|exact IH|reflexivity].
  now destruct (events_of json_loads l).
Qed.

Lemma event_of_bad_line (bad : string) :
  Str.startswith bad "data: " = false
  \/ json_loads (Str.drop 6 bad) = JSONDecodeError ->
  event_of_line json_loads bad = Skipped.
Proof.
  unfold event_of_line. intros [->| ->]; [reflexivity|].
  destruct (Str.startswith bad "data: "), (Str.truthy (Str.drop 6 bad)); reflexivity.
Qed.

Lemma event_of_data_line (d : string) :
  d <> EmptyString ->
  event_of_line json_loads ("data: " +:+ d)
  = match json_loads d with
    | Value e => Yields e
    | JSONDecodeError => Skipped
    | OtherException what => Raises what
    end.
Proof.
  intros Hd. unfold event_of_line.
  change (Str.drop 6 ("data: " +:+ d)) with d.
  replace (Str.startswith ("data: " +:+ d) "data: ") with true.
  - destruct d; [contradiction|reflexivity].
  - unfold Str.startswith. cbn. destruct d; reflexivity.
Qed.

(** A line that does not open with ["data: "], or whose data makes
    [json.loads] raise [JSONDecodeError], yields nothing and does not end the
    stream: the events around it are yielded in order, each as parsed. *)
Lemma decode_errors_are_skipped (before after : list string) (bad : string) :
  Str.startswith bad "data: " = false
  \/ json_loads (Str.drop 6 bad) = JSONDecodeError ->
  anext json_loads (bad :: after) = anext json_loads after
  /\ events_of json_loads (before ++ bad :: after)
     = events_of json_loads (before ++ after).
Proof.
  intros Hbad. apply event_of_bad_line in Hbad. split.
  - simpl. now rewrite Hbad.
  - rewrite !events_of_app. simpl. now rewrite Hbad.
Qed.

End EventStream.

(** C7, where the code falls short.  A record on which [json.loads] raises
    anything but [JSONDecodeError] is not skipped: the exception comes out of
    the generator, which ends there.  The events of the lines before it have
    been yielded; the lines after it are never read, whatever they hold. *)
Theorem other_exception_ends_stream {Ev : Type} (json_loads : string -> Loaded Ev)
        (before after : list string) (d what : string) :
  d <> EmptyString ->
  json_loads d = OtherException what ->
  snd (events_of json_loads before) = Exhausted ->
  anext json_loads (("data: " +:+ d) :: after) = Propagates what
  /\ subscribe_events json_loads (Ok (before ++ ("data: " +:+ d) :: after))
     = (fst (events_of json_loads before), LoadsError what).
Proof.
  intros Hd Hraise Hbefore.
  pose proof (event_of_data_line json_loads d Hd) as Hline.
  rewrite Hraise in Hline. split.
  - simpl. now rewrite Hline.
  - cbn [subscribe_events]. rewrite events_of_app, Hbefore. simpl.
    rewrite Hline. simpl. now rewrite app_nil_r.
Qed.

Lemma other_exception_ends_stream_witness :
  subscribe_events Sample.loads
    (Ok (["data: {a}"; "data: oops"] ++ "data: [[[[" :: ["data: {b}"; "data: {c}"]))
  = (["{a}"], LoadsError "RecursionError").
Proof.
  apply (other_exception_ends_stream Sample.loads
           ["data: {a}"; "data: oops"] ["data: {b}"; "data: {c}"] "[[[["
           "RecursionError").
  - discriminate.
  - reflexivity.
  - reflexivity.
Defined.

(** ** Reasoning about the calls and the frame of a computation *)

Section Frames.
Context {A B : Type}.

Lemma emits_ret (P : Call -> Prop) (a : A) : emits P (ret a).
Proof. intros w. exists []. simpl. now rewrite app_nil_r. Qed.

Lemma emits_modify (P : Call -> Prop) (f : World -> World) :
  (forall w, trace (f w) = trace w) -> emits P (modify f).
Proof. intros Hf w. exists []. simpl. now rewrite app_nil_r, Hf. Qed.

Lemma emits_http (P : Call -> Prop) (c : Call) (serve : Server -> Res A * Server) :
  P c -> emits P (http c serve).
Proof.
  intros Hc w. exists [c]. split; [|now constructor].
  unfold http. destruct (next_fault (server (log c w))) as [[] s];
    [reflexivity|]. destruct (serve s); reflexivity.
Qed.

Lemma emits_bind (P : Call -> Prop) (m : M A) (k : A -> M B) :
  emits P m -> (forall a, emits P (k a)) -> emits P (bind m k).
Proof.
  intros Hm Hk w. unfold bind.
  destruct (Hm w) as (cs1 & Ht1 & Hp1).
  destruct (m w) as [[a|e] w1]; simpl in Ht1.
  - destruct (Hk a w1) as (cs2 & Ht2 & Hp2).
    exists (cs1 ++ cs2). rewrite Ht2, Ht1, app_assoc. split; [reflexivity|].
    apply Forall_app; auto.
  - exists cs1. auto.
Qed.

Lemma emits_try_except (P : Call -> Prop) (m : M A) (h : Exn -> M A) :
  emits P m -> (forall e, emits P (h e)) -> emits P (try_except m h).
Proof.
  intros Hm Hh w. unfold try_except.
  destruct (Hm w) as (cs1 & Ht1 & Hp1).
  destruct (m w) as [[a|e] w1]; simpl in Ht1.
  - exists cs1. auto.
  - destruct (Hh e w1) as (cs2 & Ht2 & Hp2).
    exists (cs1 ++ cs2). rewrite Ht2, Ht1, app_assoc. split; [reflexivity|].
    apply Forall_app; auto.
Qed.

Lemma ignores_ret (a : A) : ignores_model (ret a).
Proof. intros mo w. reflexivity. Qed.

Lemma ignores_set_active (a : option Session.t) :
  ignores_model (modify (set_active_session a)).
Proof. intros mo w. reflexivity. Qed.

Lemma ignores_http (c : Call) (serve : Server -> Res A * Server) :
  ignores_model (http c serve).
Proof.
  intros mo w. unfold http. cbn [server log set_current_model].
  destruct (next_fault (server w)) as [[] s]; [reflexivity|].
  destruct (serve s); reflexivity.
Qed.

Lemma ignores_bind (m : M A) (k : A -> M B) :
  ignores_model m -> (forall a, ignores_model (k a)) -> ignores_model (bind m k).
Proof.
  intros Hm Hk mo w. unfold bind. rewrite (Hm mo w).
  destruct (m w) as [[a|e] w1]; simpl; [apply Hk|reflexivity].
Qed.

Lemma ignores_try_except (m : M A) (h : Exn -> M A) :
  ignores_model m -> (forall e, ignores_model (h e)) ->
  ignores_model (try_except m h).
Proof.
  intros Hm Hh mo w. unfold try_except. rewrite (Hm mo w).
  destruct (m w) as [[a|e] w1]; simpl; [reflexivity|apply Hh].
Qed.

End Frames.

Create HintDb frames.
#[local] Hint Resolve emits_ret emits_modify emits_http emits_bind emits_try_except
  ignores_ret ignores_set_active ignores_http ignores_bind ignores_try_except : frames.

(** ** The handlers *)

Section Handlers.

Lemma lstrip_all_space (s : string) :
  Str.all_space s = true -> Str.lstrip s = EmptyString.
Proof.
  induction s as [|c s IH]; simpl; [reflexivity|].
  destruct (Str.isspace c); simpl; [exact IH|discriminate].
Qed.

Lemma strip_all_space (s : string) :
  Str.all_space s = true -> Str.strip s = EmptyString.
Proof. intros H. unfold Str.strip. now rewrite lstrip_all_space. Qed.

Lemma send_message_body_no_model (content : string) (agent : option string) :
  send_message_body content agent None !! "model" = None.
Proof.
  unfold send_message_body. destruct agent as [[|c a]|]; simpl;
    rewrite ?lookup_insert_ne by discriminate;
    apply lookup_singleton_ne; discriminate.
Qed.

Lemma get_or_create_session_emits (P : Call -> Prop) :
  (forall c, is_get_session c = true -> P c) ->
  (forall c, is_create_session c = true -> P c) ->
  emits P get_or_create_session.
Proof.
  intros Hg Hc. unfold get_or_create_session, get_session, create_session.
  apply emits_bind; [intros w; exists []; simpl; now rewrite app_nil_r|].
  intros w0. apply emits_bind.
  - destruct (active_session w0); auto 10 with frames.
  - intros [x|]; auto 10 with frames.
Qed.

Lemma ignores_get_world {A} (k : World -> M A) :
  (forall w0, ignores_model (k w0)) ->
  (forall mo w0, k (set_current_model mo w0) = k w0) ->
  ignores_model (bind get_world k).
Proof.
  intros Hk Hread mo w. unfold bind, get_world. rewrite Hread. apply Hk.
Qed.

Lemma get_or_create_session_ignores_model : ignores_model get_or_create_session.
Proof.
  unfold get_or_create_session, get_session, create_session.
  apply ignores_get_world; [|reflexivity].
  intros w0. apply ignores_bind.
  - destruct (active_session w0); auto 10 with frames.
  - intros [x|]; auto 10 with frames.
Qed.

Lemma build_sends_no_model (args : string) :
  emits sends_no_model (BuildCommand_execute args).
Proof.
  unfold BuildCommand_execute, send_message_async.
  destruct (negb (Str.truthy (Str.strip args))); [apply emits_ret|].
  apply emits_try_except; [|auto with frames].
  apply emits_bind.
  - apply get_or_create_session_emits;
      intros [[] ?|[] ? [?|]|? ?|? ?|? ?] H; (exact I || discriminate H).
  - intros x. apply emits_bind; [|auto with frames].
    apply emits_http. apply send_message_body_no_model.
Qed.

Lemma plan_sends_no_model (args : string) :
  emits sends_no_model (PlanCommand_execute args).
Proof.
  unfold PlanCommand_execute, send_message_async.
  destruct (negb (Str.truthy (Str.strip args))); [apply emits_ret|].
  apply emits_try_except; [|auto with frames].
  apply emits_bind.
  - apply get_or_create_session_emits;
      intros [[] ?|[] ? [?|]|? ?|? ?|? ?] H; (exact I || discriminate H).
  - intros x. apply emits_bind; [|auto with frames].
    apply emits_http. apply send_message_body_no_model.
Qed.

Lemma build_ignores_model (args : string) :
  ignores_model (BuildCommand_execute args).
Proof.
  unfold BuildCommand_execute, send_message_async.
  destruct (negb (Str.truthy (Str.strip args)));
    auto 10 using get_or_create_session_ignores_model with frames.
Qed.

Lemma plan_ignores_model (args : string) :
  ignores_model (PlanCommand_execute args).
Proof.
  unfold PlanCommand_execute, send_message_async.
  destruct (negb (Str.truthy (Str.strip args)));
    auto 10 using get_or_create_session_ignores_model with frames.
Qed.

(** C4, as the code has it.  The build and the plan command, given an
    empty or whitespace-only argument, return a failed result whose
    message holds the handler's short usage line, and leave the world as it
    was: no request to the control-plane, no call at all. *)
Theorem required_argument_missing (cmd : Command) (bot : Bot) (args : string)
        (w : World) :
  cls cmd = BuildCommand \/ cls cmd = PlanCommand ->
  Str.all_space args = true ->
  exists r,
    execute cmd bot args w = (Ok r, w)
    /\ success r = false
    /\ Str.contains (usage_hint (cls cmd)) (message r) = true.
Proof.
  intros Hcls Hargs. apply strip_all_space in Hargs.
  unfold execute.
  destruct Hcls as [-> | ->];
    unfold BuildCommand_execute, PlanCommand_execute; rewrite Hargs;
    eexists; (split; [reflexivity|split; reflexivity]).
Qed.

Lemma required_argument_missing_witness :
  exists r,
    execute {| oid := 1; cls := PlanCommand |} (Sample.bot_of Sample.cfg)
            "   " Sample.w0 = (Ok r, Sample.w0)
    /\ success r = false
    /\ Str.contains "Usage: /plan <request>" (message r) = true.
Proof.
  apply (required_argument_missing {| oid := 1; cls := PlanCommand |}
           (Sample.bot_of Sample.cfg) "   " Sample.w0).
  - right. reflexivity.
  - reflexivity.
Defined.

(** C4, as stated, fails: the message the build command returns for an
    empty argument does not hold the command's [usage],
    ["/build <task description>"]; it holds ["Usage: /build <task>"]. *)
Lemma declared_usage_not_in_message :
  ~ (forall (cmd : Command) (bot : Bot) (args : string) (w : World),
        cls cmd = BuildCommand \/ cls cmd = PlanCommand ->
        Str.all_space args = true ->
        exists r,
          execute cmd bot args w = (Ok r, w)
          /\ success r = false
          /\ Str.contains (usage cmd) (message r) = true).
Proof.
  intros H.
  destruct (H {| oid := 0; cls := BuildCommand |} (Sample.bot_of Sample.cfg)
              EmptyString Sample.w0 (or_introl eq_refl) eq_refl)
    as (r & Hrun & _ & Hin).
  injection Hrun as <-. vm_compute in Hin. discriminate Hin.
Qed.

(** C9. The model command reaches no one: it returns a successful result
    and adds no call to the trace, and leaves the server and the session
    binding alone; without arguments it changes nothing and its message is
    the fixed list, which names the four known models; with an argument
    it stores the stripped argument as [current_model], which then reads
    back as that argument, and changes nothing else.  The build and the plan
    command send no ["model"] in any [send_message_async] body, run the same
    whatever preference is stored, and leave the preference as it is. *)
Theorem model_preference_is_local (args : string) (w : World) :
  ModelCommand_execute args w
  = (if Str.truthy (Str.strip args)
     then (Ok (result true ("Switched to model: `" +:+ Str.strip args +:+ "`")),
           set_current_model (Some (Str.strip args)) w)
     else (Ok (result true known_models), w))
  /\ current_model (snd (ModelCommand_execute args w))
     = (if Str.truthy (Str.strip args) then Some (Str.strip args)
        else current_model w)
  /\ trace (snd (ModelCommand_execute args w)) = trace w
  /\ server (snd (ModelCommand_execute args w)) = server w
  /\ active_session (snd (ModelCommand_execute args w)) = active_session w
  /\ Forall (fun model => Str.contains model known_models = true)
            ["claude-opus-4.5"; "claude-sonnet-4.5"; "gemini-3-pro-high";
             "gemini-3-flash"]
  /\ (forall content,
         emits sends_no_model (BuildCommand_execute content)
         /\ emits sends_no_model (PlanCommand_execute content)
         /\ ignores_model (BuildCommand_execute content)
         /\ ignores_model (PlanCommand_execute content))
  /\ (forall content w',
         current_model (snd (BuildCommand_execute content w')) = current_model w'
         /\ current_model (snd (PlanCommand_execute content w')) = current_model w').
Proof.
  assert (Hkeep : forall (m : M CommandResult.t) w',
             ignores_model m -> current_model (snd (m w')) = current_model w').
  { intros m w' Hm. pose proof (Hm (current_model w') w') as H.
    replace (set_current_model (current_model w') w') with w' in H
      by now destruct w'.
    rewrite H at 1. reflexivity. }
  unfold ModelCommand_execute.
  destruct (Str.truthy (Str.strip args)); simpl;
    (repeat split;
     auto using build_sends_no_model, plan_sends_no_model,
       build_ignores_model, plan_ignores_model);
    repeat constructor.
Qed.

End Handlers.

(** ** The session binding *)

Section Binding.

Lemma find_session_id (sid : string) (l : list Session.t) (x : Session.t) :
  find_session sid l = Some x -> Session.id x = sid.
Proof.
  induction l as [|y l IH]; simpl; [discriminate|].
  destruct (String.eqb_spec (Session.id y) sid) as [E|_]; [|exact IH].
  now intros [= <-].
Qed.

Lemma find_session_last (l : list Session.t) (x : Session.t) :
  exists y, find_session (Session.id x) (l ++ [x]) = Some y.
Proof.
  induction l as [|z l IH]; simpl.
  - rewrite String.eqb_refl. eauto.
  - destruct (String.eqb (Session.id z) (Session.id x)); eauto.
Qed.

Lemma fault_free_next (k : nat) (s : Server) :
  fault_free (S k) s -> fst (next_fault s) = false /\ fault_free k (tick s).
Proof.
  unfold fault_free, tick, next_fault.
  destruct s as [ss st ag cr [|[] f]]; simpl; try discriminate; auto.
  now destruct k.
Qed.

Lemma fault_free_le (k : nat) (s : Server) :
  fault_free (S k) s -> fault_free k s.
Proof.
  unfold fault_free. destruct s as [ss st ag cr f]; simpl.
  revert k. induction f as [|b f IH]; intros [|k]; simpl; auto.
  intros H. apply andb_prop in H as [Hb Hf]. rewrite Hb. simpl. now apply IH.
Qed.

Lemma tick_sessions (s : Server) :
  srv_sessions (tick s) = srv_sessions s /\ srv_created (tick s) = srv_created s.
Proof. unfold tick, next_fault. destruct s as [ss st ag cr [|b f]]; auto. Qed.

Lemma http_run {A} (c : Call) (serve : Server -> Res A * Server) (w : World) :
  fst (next_fault (server w)) = false ->
  http c serve w
  = (fst (serve (tick (server w))),
     set_server (snd (serve (tick (server w)))) (log c w)).
Proof.
  unfold http, tick. cbn [server log].
  destruct (next_fault (server w)) as [b s]. simpl. intros ->.
  now destruct (serve s).
Qed.

(** Whatever the outcome, [get_session] adds its request to the trace and
    leaves the binding alone. *)
Lemma get_session_frame (sid : string) (w w1 : World) (r : Res Session.t) :
  get_session sid w = (r, w1) ->
  trace w1 = trace w ++ [verification sid]
  /\ active_session w1 = active_session w
  /\ current_model w1 = current_model w.
Proof.
  unfold get_session, http. cbn [server log].
  destruct (next_fault (server w)) as [[] s].
  - intros [= <- <-]. auto.
  - destruct (serve_get_session sid s). intros [= <- <-]. auto.
Qed.

(** An empty binding: one creation, and the new session is bound. *)
Lemma get_or_create_empty (w : World) :
  active_session w = None ->
  fst (next_fault (server w)) = false ->
  exists s w1,
    get_or_create_session w = (Ok s, w1)
    /\ active_session w1 = Some s
    /\ current_model w1 = current_model w
    /\ trace w1 = trace w ++ [creation]
    /\ Session.id s = new_id (srv_created (server w))
    /\ srv_sessions (server w1) = srv_sessions (server w) ++ [s]
    /\ srv_faults (server w1) = srv_faults (tick (server w)).
Proof.
  intros Hnone Hok.
  unfold get_or_create_session, bind, get_world. rewrite Hnone.
  unfold ret at 1. unfold create_session.
  rewrite (http_run _ _ _ Hok).
  destruct (tick_sessions (server w)) as [Hs Hc].
  unfold serve_create_session. cbn [fst snd modify ret].
  rewrite Hs, Hc. eexists _, _. split; [reflexivity|].
  repeat split.
Qed.

(** A binding the server confirms: one verification, nothing else. *)
Lemma get_or_create_live (w : World) (cached x : Session.t) :
  active_session w = Some cached ->
  fst (next_fault (server w)) = false ->
  find_session (Session.id cached) (srv_sessions (server w)) = Some x ->
  get_or_create_session w
  = (Ok x, set_server (tick (server w)) (log (verification (Session.id cached)) w)).
Proof.
  intros Hsome Hok Hfind.
  unfold get_or_create_session, bind, get_world. rewrite Hsome.
  unfold try_except, get_session. rewrite (http_run _ _ _ Hok).
  unfold serve_get_session.
  destruct (tick_sessions (server w)) as [-> _]. rewrite Hfind. reflexivity.
Qed.

(** A binding whose verification fails is cleared, and the call goes on
    as one on an empty binding. *)
Lemma get_or_create_stale (w w1 : World) (cached : Session.t) (e : Exn) :
  active_session w = Some cached ->
  get_session (Session.id cached) w = (Raise e, w1) ->
  get_or_create_session w = get_or_create_session (set_active_session None w1).
Proof.
  intros Hsome Hget.
  unfold get_or_create_session, bind, get_world. rewrite Hsome.
  unfold try_except. rewrite Hget. reflexivity.
Qed.

Lemma next_fault_faults (s s' : Server) :
  srv_faults s = srv_faults s' -> fst (next_fault s) = fst (next_fault s').
Proof. unfold next_fault. intros ->. now destruct (srv_faults s'). Qed.

(** A verification the server answers with 404. *)
Lemma get_session_not_found (sid : string) (w : World) :
  fst (next_fault (server w)) = false ->
  find_session sid (srv_sessions (server w)) = None ->
  get_session sid w
  = (Raise (HTTPStatusError 404 ("/session/" +:+ sid)),
     set_server (tick (server w)) (log (verification sid) w)).
Proof.
  intros Hok Hfind. unfold get_session. rewrite (http_run _ _ _ Hok).
  unfold serve_get_session.
  destruct (tick_sessions (server w)) as [-> _]. now rewrite Hfind.
Qed.

(** The call after a session was created and bound: one verification,
    which the server confirms. *)
Lemma get_or_create_after_creation (w1 : World) (s : Session.t) (l : list Session.t) :
  active_session w1 = Some s ->
  srv_sessions (server w1) = l ++ [s] ->
  fst (next_fault (server w1)) = false ->
  exists y w2,
    get_or_create_session w1 = (Ok y, w2)
    /\ Session.id y = Session.id s
    /\ trace w2 = trace w1 ++ [verification (Session.id s)].
Proof.
  intros Hact Hsrv Hok.
  destruct (find_session_last l s) as [y Hy]. rewrite <- Hsrv in Hy.
  exists y, (set_server (tick (server w1)) (log (verification (Session.id s)) w1)).
  split; [now apply get_or_create_live|].
  split; [now apply find_session_id in Hy|reflexivity].
Qed.

(** C6, as the code has it.  When the verification of the cached session
    fails, the binding is cleared and the call goes on as on an empty
    binding: given that the creation request meets no transport fault, it
    returns normally, with a session the server has just added as its only
    new one, the binding holds that session, and the calls made are the
    failed verification and one creation. *)
Theorem stale_binding_is_recreated (w w1 : World) (cached : Session.t) (e : Exn) :
  active_session w = Some cached ->
  get_session (Session.id cached) w = (Raise e, w1) ->
  fault_free 1 (server w1) ->
  get_or_create_session w = get_or_create_session (set_active_session None w1)
  /\ exists s w2,
      get_or_create_session w = (Ok s, w2)
      /\ active_session w2 = Some s
      /\ trace w2 = trace w ++ [verification (Session.id cached); creation]
      /\ srv_sessions (server w2) = srv_sessions (server w1) ++ [s]
      /\ Session.id s = new_id (srv_created (server w1)).
Proof.
  intros Hact Hget Hff.
  pose proof (get_or_create_stale w w1 cached e Hact Hget) as Hgo.
  split; [exact Hgo|]. rewrite Hgo.
  destruct (get_session_frame _ _ _ _ Hget) as (Htr & _ & _).
  destruct (fault_free_next 0 _ Hff) as [Hok _].
  destruct (get_or_create_empty (set_active_session None w1) eq_refl Hok)
    as (s & w2 & Hrun & Hb & _ & Ht & Hid & Hsess & _).
  exists s, w2. cbn [trace server set_active_session] in Ht, Hid, Hsess.
  rewrite Htr, <- app_assoc in Ht. auto.
Qed.

Lemma stale_binding_is_recreated_witness :
  exists s w2,
    get_or_create_session Sample.w_stale = (Ok s, w2)
    /\ active_session w2 = Some s
    /\ trace w2 = [verification "ses_0"; creation]
    /\ Session.id s = "ses_1".
Proof.
  destruct (stale_binding_is_recreated Sample.w_stale
              (set_server (tick Sample.srv_lost)
                 (log (verification "ses_0") Sample.w_stale))
              Sample.ses (HTTPStatusError 404 "/session/ses_0")
              eq_refl eq_refl eq_refl)
    as (_ & s & w2 & Hrun & Hb & Ht & _ & Hid).
  exists s, w2. auto.
Defined.

(** C6, as stated, fails: the creation is outside the [try], so when the
    server reports the cached session as not found and the creation request
    then meets a transport fault, the call raises; the binding is left
    empty and the server holds no new session. *)
Lemma stale_binding_creation_may_fail :
  ~ (forall (w w1 : World) (cached : Session.t) (e : Exn),
        active_session w = Some cached ->
        get_session (Session.id cached) w = (Raise e, w1) ->
        exists s w2,
          get_or_create_session w = (Ok s, w2)
          /\ active_session w2 = Some s
          /\ srv_sessions (server w2) = srv_sessions (server w1) ++ [s]).
Proof.
  intros H.
  destruct (H (set_server (set_srv_faults [false; true] Sample.srv_lost) Sample.w_stale)
              (set_server (set_srv_faults [true] Sample.srv_lost)
                 (log (verification "ses_0") Sample.w_stale))
              Sample.ses (HTTPStatusError 404 "/session/ses_0") eq_refl eq_refl)
    as (s & w2 & Hrun & _).
  vm_compute in Hrun. discriminate Hrun.
Qed.

(** C1, as the code has it.  With no transport fault on the way, two
    calls in a row both return, with the same session id.  The second call
    makes one verification request and nothing else.  The first makes one
    verification request when a session is cached and none otherwise, and
    one creation request unless the cached session is still on the
    server. *)
Theorem get_or_create_twice (w : World) :
  fault_free 3 (server w) ->
  exists s1 w1 s2 w2 calls1,
    get_or_create_session w = (Ok s1, w1)
    /\ get_or_create_session w1 = (Ok s2, w2)
    /\ Session.id s2 = Session.id s1
    /\ trace w1 = trace w ++ calls1
    /\ trace w2 = trace w1 ++ [verification (Session.id s1)]
    /\ count is_get_session calls1
       = match active_session w with Some _ => 1 | None => 0 end
    /\ count is_create_session calls1 = (if binding_live w then 0 else 1).
Proof.
  intros Hff3.
  destruct (fault_free_next 2 _ Hff3) as [Hok1 Hff2].
  destruct (fault_free_next 1 _ Hff2) as [Hok2 Hff1].
  destruct (fault_free_next 0 _ Hff1) as [Hok3 _].
  unfold binding_live.
  destruct (active_session w) as [cached|] eqn:Hact.
  - destruct (find_session (Session.id cached) (srv_sessions (server w)))
      as [x|] eqn:Hfind.
    + pose proof (get_or_create_live w cached x Hact Hok1 Hfind) as Hrun1.
      set (w1 := set_server (tick (server w)) (log (verification (Session.id cached)) w))
        in *.
      assert (Hfind1 : find_session (Session.id cached) (srv_sessions (server w1))
                       = Some x).
      { cbn [w1 server set_server]. now destruct (tick_sessions (server w)) as [-> _]. }
      pose proof (get_or_create_live w1 cached x Hact Hok2 Hfind1) as Hrun2.
      apply find_session_id in Hfind.
      exists x, w1, x,
        (set_server (tick (server w1)) (log (verification (Session.id cached)) w1)),
        [verification (Session.id cached)].
      rewrite Hfind. auto 10.
    + pose proof (get_session_not_found _ w Hok1 Hfind) as Hget.
      set (w' := set_server (tick (server w)) (log (verification (Session.id cached)) w))
        in *.
      rewrite (get_or_create_stale w w' cached _ Hact Hget).
      destruct (get_or_create_empty (set_active_session None w') eq_refl Hok2)
        as (s & w1 & Hrun & Hb & _ & Ht & _ & Hsess & Hfaults).
      cbn [w' trace server set_active_session set_server log] in Ht, Hsess, Hfaults.
      destruct (get_or_create_after_creation w1 s _ Hb Hsess) as (y & w2 & Hrun2 & Hy & Ht2).
      { now rewrite (next_fault_faults _ _ Hfaults). }
      exists s, w1, y, w2, [verification (Session.id cached); creation].
      rewrite <- app_assoc in Ht. auto 10.
  - destruct (get_or_create_empty w Hact Hok1)
      as (s & w1 & Hrun & Hb & _ & Ht & _ & Hsess & Hfaults).
    destruct (get_or_create_after_creation w1 s _ Hb Hsess) as (y & w2 & Hrun2 & Hy & Ht2).
    { now rewrite (next_fault_faults _ _ Hfaults). }
    exists s, w1, y, w2, [creation]. auto 10.
Qed.

Lemma get_or_create_twice_witness :
  exists s1 w1 s2 w2,
    get_or_create_session Sample.w0 = (Ok s1, w1)
    /\ get_or_create_session w1 = (Ok s2, w2)
    /\ Session.id s2 = Session.id s1
    /\ count is_get_session (trace w2) = 1
    /\ count is_create_session (trace w2) = 1.
Proof.
  destruct (get_or_create_twice Sample.w0 eq_refl)
    as (s1 & w1 & s2 & w2 & calls1 & H1 & H2 & Hid & Ht1 & Ht2 & Hg & Hc).
  exists s1, w1, s2, w2. repeat (split; [assumption|]).
  rewrite Ht2, Ht1. unfold count in *. rewrite !filter_app, !length_app.
  cbn [Sample.w0 trace active_session binding_live filter length app] in *.
  rewrite Hg, Hc. split; reflexivity.
Defined.

(** C1, as stated, fails: from a binding that caches a session the server
    holds, the two calls make two verification requests, not one. *)
Lemma cached_binding_verifies_twice :
  ~ (forall w : World,
        fault_free 3 (server w) ->
        exists s1 w1 s2 w2 calls,
          get_or_create_session w = (Ok s1, w1)
          /\ get_or_create_session w1 = (Ok s2, w2)
          /\ Session.id s2 = Session.id s1
          /\ trace w2 = trace w ++ calls
          /\ count is_get_session calls = 1
          /\ count is_create_session calls <= 1).
Proof.
  intros H.
  destruct (H Sample.w_cached eq_refl)
    as (s1 & w1 & s2 & w2 & calls & H1 & H2 & _ & Ht & Hg & _).
  vm_compute in H1. injection H1 as <- <-.
  vm_compute in H2. injection H2 as <- <-.
  simpl in Ht. subst calls. vm_compute in Hg. discriminate Hg.
Qed.

End Binding.


(** ** The dispatcher: stages, dropped messages, replies *)

Section Dispatcher.

Lemma handle_message_stages (bot : Bot) (room_id : string) (event : Event) :
  handle_message bot room_id event
  = match parse_message bot room_id event with
    | Some (cmd_name, args) => dispatch bot room_id cmd_name args
    | None => ret tt
    end.
Proof.
  unfold handle_message, parse_message, dispatch.
  destruct (sender event) as [s|]; [|reflexivity].
  repeat match goal with
         | |- context [if ?b then _ else _] => destruct b; try reflexivity
         end;
    destruct (Str.split1 _); reflexivity.
Qed.

Lemma split1_all_space (s : string) :
  Str.all_space s = true -> Str.split1 s = [].
Proof. intros H. unfold Str.split1. now rewrite lstrip_all_space. Qed.

(** X1. A message is dropped, with no call and no change of state, when it
    has no sender or an empty one, an empty body, when it is the bot's own
    (by the chat library's check, or, when that check raises, by the sender
    being the bot's user name), when the body does not open with the prefix,
    or when only whitespace follows the prefix. *)
Theorem dropped_messages (bot : Bot) (room_id : string) (event : Event) (w : World) :
  sender event = None
  \/ sender event = Some EmptyString
  \/ body_of event = EmptyString
  \/ is_not_from_this_bot bot room_id event = Ok false
  \/ (exists e, is_not_from_this_bot bot room_id event = Raise e
                /\ sender event = Some (username (config bot)))
  \/ Str.startswith (body_of event) (prefix (config bot)) = false
  \/ Str.all_space (Str.drop (String.length (prefix (config bot))) (body_of event))
     = true ->
  handle_message bot room_id event w = (Ok tt, w).
Proof.
  intros H. rewrite handle_message_stages.
  assert (Hnone : parse_message bot room_id event = None); [|now rewrite Hnone].
  unfold parse_message. fold (body_of event).
  destruct H as [H|[H|[H|[H|[(e & H & Hs)|[H|H]]]]]].
  - now rewrite H.
  - now rewrite H.
  - rewrite H. destruct (sender event) as [s|]; [|reflexivity].
    now destruct (Str.truthy s).
  - rewrite H. destruct (sender event) as [s|]; [|reflexivity].
    destruct (Str.truthy s), (Str.truthy (body_of event)); reflexivity.
  - rewrite H, Hs, String.eqb_refl.
    destruct (Str.truthy (username (config bot))), (Str.truthy (body_of event));
      reflexivity.
  - rewrite H. destruct (sender event) as [s|]; [|reflexivity].
    repeat match goal with
           | |- context [if ?b then _ else _] => destruct b; try reflexivity
           end.
  - rewrite (split1_all_space _ H). destruct (sender event) as [s|]; [|reflexivity].
    repeat match goal with
           | |- context [if ?b then _ else _] => destruct b; try reflexivity
           end.
Qed.

Lemma dropped_messages_witness :
  handle_message (Sample.bot_of Sample.cfg) "!room"
                 (Sample.text "@alice:example.org" "hello there") Sample.w0
  = (Ok tt, Sample.w0)
  /\ handle_message (Sample.bot_of Sample.cfg) "!room"
                    (Sample.text "@codebeep:example.org" "/help") Sample.w0
     = (Ok tt, Sample.w0).
Proof.
  split; apply dropped_messages.
  - do 5 right. left. reflexivity.
  - do 3 right. left. reflexivity.
Defined.

(** X2. A message that passes the guards but names no registered command
    gets one text reply, which quotes the lower-cased token, when
    [unknown_command_reply] is set, and nothing at all when it is not. *)
Theorem unknown_command (bot : Bot) (room_id : string) (event : Event)
        (cmd_name args : string) (w : World) :
  parse_message bot room_id event = Some (cmd_name, args) ->
  Dict.get cmd_name (commands bot) = None ->
  handle_message bot room_id event w
  = (Ok tt,
     if unknown_command_reply (config bot)
     then log (send_text_message_ room_id
                 ("Unknown command: " +:+ cmd_name +:+ Str.LF
                  +:+ "Use /help to see available commands.")) w
     else w).
Proof.
  intros Hp Hg. rewrite handle_message_stages, Hp.
  unfold dispatch. rewrite Hg.
  now destruct (unknown_command_reply (config bot)).
Qed.

Lemma unknown_command_witness :
  handle_message (Sample.bot_of Sample.cfg) "!room"
                 (Sample.text "@alice:example.org" "/Frobnicate now") Sample.w0
  = (Ok tt,
     log (send_text_message_ "!room"
            ("Unknown command: frobnicate" +:+ Str.LF
             +:+ "Use /help to see available commands.")) Sample.w0).
Proof.
  apply (unknown_command (Sample.bot_of Sample.cfg) "!room"
           (Sample.text "@alice:example.org" "/Frobnicate now")
           "frobnicate" "now" Sample.w0); reflexivity.
Defined.

End Dispatcher.

(** ** The handlers: isolation *)

Section Isolation.

Lemma emits_get_world (P : Call -> Prop) : emits P get_world.
Proof. intros w. exists []. simpl. now rewrite app_nil_r. Qed.

Lemma emits_lift {A} (P : Call -> Prop) (r : Res A) : emits P (lift r).
Proof. intros w. exists []. simpl. now rewrite app_nil_r. Qed.

Lemma emits_chat (P : Call -> Prop) (c : Call) : P c -> emits P (chat c).
Proof. intros Hc w. exists [c]. split; [reflexivity|now constructor]. Qed.

Lemma emits_for_each {A} (P : Call -> Prop) (f : A -> M unit) (l : list A) :
  (forall x, emits P (f x)) -> emits P (for_each f l).
Proof.
  intros Hf. induction l as [|x l IH]; simpl.
  - apply emits_ret.
  - apply emits_bind; auto.
Qed.

Lemma emits_try_finally {A} (P : Call -> Prop) (m : M A) (f : M unit) :
  emits P m -> emits P f -> emits P (try_finally m f).
Proof.
  intros Hm Hf w. unfold try_finally.
  destruct (Hm w) as (cs1 & Ht1 & Hp1).
  destruct (m w) as [r w1]; simpl in Ht1.
  destruct (Hf w1) as (cs2 & Ht2 & Hp2).
  exists (cs1 ++ cs2).
  destruct (f w1) as [[u|e] w2]; simpl in *;
    rewrite Ht2, Ht1, app_assoc; (split; [reflexivity|apply Forall_app; auto]).
Qed.

Lemma emits_weaken {A} (P Q : Call -> Prop) (m : M A) :
  (forall c, P c -> Q c) -> emits P m -> emits Q m.
Proof.
  intros HPQ Hm w. destruct (Hm w) as (cs & Ht & Hp).
  exists cs. split; [exact Ht|]. eapply Forall_impl; eauto.
Qed.

(** A handler made of [try: ... except Exception: return ...] returns. *)
Lemma try_except_ret_ok {A} (m : M A) (f : Exn -> A) (w : World) :
  exists a, fst (try_except m (fun e => ret (f e)) w) = Ok a.
Proof. unfold try_except. destruct (m w) as [[a|e] w1]; simpl; eauto. Qed.

Lemma execute_returns (cmd : Command) (bot : Bot) (args : string) (w : World) :
  exists r, fst (execute cmd bot args w) = Ok r.
Proof.
  unfold execute.
  destruct (cls cmd);
    unfold BuildCommand_execute, PlanCommand_execute, StatusCommand_execute,
      SessionsCommand_execute, AbortCommand_execute, ModelCommand_execute,
      HelpCommand_execute, AgentsCommand_execute;
    repeat match goal with
           | |- context [if ?b then _ else _] => destruct b
           | |- context [match Dict.get ?k ?d with _ => _ end] => destruct (Dict.get k d)
           | |- context [match find_by_alias ?k ?d with _ => _ end] =>
               destruct (find_by_alias k d)
           end;
    try apply try_except_ret_ok; simpl; eauto.
Qed.

Lemma execute_emits_http (cmd : Command) (bot : Bot) (args : string) :
  emits (fun c => is_http c = true) (execute cmd bot args).
Proof.
  unfold execute.
  destruct (cls cmd);
    unfold BuildCommand_execute, PlanCommand_execute, StatusCommand_execute,
      SessionsCommand_execute, AbortCommand_execute, ModelCommand_execute,
      HelpCommand_execute, AgentsCommand_execute,
      get_session_status, list_sessions, list_agents, abort_session,
      send_message_async;
    repeat match goal with
           | |- emits _ (ret _) => apply emits_ret
           | |- emits _ (bind _ _) => apply emits_bind; [|intros ?]
           | |- emits _ (try_except _ _) => apply emits_try_except; [|intros ?]
           | |- emits _ (http _ _) => apply emits_http; reflexivity
           | |- emits _ (modify _) => apply emits_modify; reflexivity
           | |- emits _ get_or_create_session =>
               apply get_or_create_session_emits;
               intros [? ?|? ? ?|? ?|? ?|? ?] H; (reflexivity || discriminate H)
           | |- emits _ (if ?b then _ else _) => destruct b
           | |- emits _ (match ?x with _ => _ end) => destruct x
           end.
Qed.

Lemma handlers_are_isolated_aux (cmd : Command) (bot : Bot) (args : string)
      (w : World) :
  exists r w' cs,
    execute cmd bot args w = (Ok r, w')
    /\ trace w' = trace w ++ cs
    /\ Forall (fun c => is_http c = true) cs.
Proof.
  destruct (execute_returns cmd bot args w) as [r Hr].
  destruct (execute_emits_http cmd bot args w) as (cs & Ht & Hp).
  destruct (execute cmd bot args w) as [r' w'] eqn:E. simpl in Hr, Ht. subst r'.
  exists r, w', cs. auto.
Qed.

(** X3. A handler never raises and never writes to the chat: whatever the
    command, the arguments and the state of the server, [execute] returns a
    result, and the calls it adds to the trace are requests to the
    control-plane. *)
Theorem handlers_are_isolated (cmd : Command) (bot : Bot) (args : string) (w : World) :
  exists r w' cs,
    execute cmd bot args w = (Ok r, w')
    /\ trace w' = trace w ++ cs
    /\ Forall (fun c => is_http c = true) cs.
Proof.
  destruct (execute_returns cmd bot args w) as [r Hr].
  destruct (execute_emits_http cmd bot args w) as (cs & Ht & Hp).
  destruct (execute cmd bot args w) as [r' w'] eqn:E.
  cbn [fst snd] in Hr, Ht. subst r'.
  exists r, w', cs. split; [reflexivity|]. split; assumption.
Qed.

End Isolation.

(** ** Delivery at the edges, and the run of a command *)

Section Run.

Lemma len_nonneg (s : string) : (0 <= len s)%Z.
Proof. unfold len. lia. Qed.

Lemma after_calls_nil (w : World) : after_calls [] w = w.
Proof. destruct w. unfold after_calls. simpl. now rewrite app_nil_r. Qed.

(** X4. A limit that is not positive.  With a negative
    [max_message_length] the result is dropped: nothing is sent, and nothing
    is raised.  With the limit zero a non-empty message makes [range] raise
    [ValueError] before anything is sent, and the empty message is sent as
    it is. *)
Theorem send_result_without_limit (cfg : Config) (room_id : string)
        (r : CommandResult.t) (w : World) :
  (max_message_length cfg <= 0)%Z ->
  _send_result cfg room_id r w
  = if (max_message_length cfg <? 0)%Z then (Ok tt, w)
    else if Str.truthy (message r)
         then (Raise (ValueError "range() arg 3 must not be zero"), w)
         else (Ok tt, log (send_markdown_message_ room_id EmptyString) w).
Proof.
  intros Hm. unfold _send_result, parts, range.
  pose proof (len_nonneg (message r)) as HL.
  destruct (Z.ltb_spec (max_message_length cfg) 0) as [Hneg|Hzero].
  - destruct (Z.ltb_spec (max_message_length cfg) (len (message r))); [|lia].
    destruct (Z.eqb_spec (max_message_length cfg) 0); [lia|].
    destruct (Z.ltb_spec 0 (max_message_length cfg)); [lia|].
    replace (Z.to_nat (0 - len (message r))) with 0%nat by lia.
    reflexivity.
  - assert (H0 : max_message_length cfg = 0%Z) by lia. rewrite H0.
    destruct (message r) as [|c m] eqn:E; [reflexivity|].
    reflexivity.
Qed.

Lemma send_result_without_limit_witness :
  _send_result {| prefix := "/"; typing_indicator := true; max_message_length := -1;
                  unknown_command_reply := true; allowed_users := [];
                  username := "@codebeep:example.org" |}
               "!room" (result true "done") Sample.w0
  = (Ok tt, Sample.w0).
Proof.
  apply (send_result_without_limit
           {| prefix := "/"; typing_indicator := true; max_message_length := -1;
              unknown_command_reply := true; allowed_users := [];
              username := "@codebeep:example.org" |}
           "!room" (result true "done") Sample.w0).
  discriminate.
Defined.

(** What [_send_result] can do: raise before sending, or send a list of
    messages to the room, not empty unless the limit is negative. *)
Lemma send_result_outcome (cfg : Config) (room_id : string)
      (r : CommandResult.t) (w : World) :
  (exists e, _send_result cfg room_id r w = (Raise e, w))
  \/ (exists cs,
         _send_result cfg room_id r w = (Ok tt, after_calls cs w)
         /\ Forall (fun c => is_message_to room_id c = true) cs
         /\ ((0 <= max_message_length cfg)%Z -> cs <> [])).
Proof.
  unfold _send_result, parts, range.
  pose proof (len_nonneg (message r)) as HL.
  destruct (Z.ltb_spec (max_message_length cfg) (len (message r))) as [Hlong|Hshort].
  - destruct (Z.eqb_spec (max_message_length cfg) 0) as [H0|Hn0].
    + left. eexists. reflexivity.
    + right.
      match goal with
      | |- context [if ?b then Ok ?l1 else Ok ?l2] =>
          exists (map (send_markdown_message_ room_id)
                      (map (fun i => slice (message r) i (i + max_message_length cfg))
                           (if b then l1 else l2)))
      end.
      split; [|split].
      * destruct (0 <? max_message_length cfg)%Z; unfold bind, lift;
          apply for_each_send.
      * apply Forall_forall. intros c Hc. apply list_elem_of_In in Hc.
        apply in_map_iff in Hc as (t & <- & _).
        simpl. apply String.eqb_refl.
      * intros Hpos.
        destruct (Z.ltb_spec 0 (max_message_length cfg)); [|lia].
        destruct (Z.to_nat (len (message r) - 0)) as [|fuel] eqn:Ef; [lia|].
        simpl. destruct (Z.ltb_spec 0 (len (message r))); [|lia].
        discriminate.
  - right. exists [send_markdown_message_ room_id (message r)].
    split; [reflexivity|]. split; [|discriminate].
    constructor; [|constructor]. simpl. apply String.eqb_refl.
Qed.

Lemma when_chat (b : bool) (c : Call) (w : World) :
  when b (chat c) w = (Ok tt, after_calls (if b then [c] else []) w).
Proof. destruct b; simpl; [reflexivity|]. now rewrite after_calls_nil. Qed.

Lemma dispatch_run (bot : Bot) (room_id cmd_name args : string)
      (cmd : Command) (w : World) :
  Dict.get cmd_name (commands bot) = Some cmd ->
  let typing b := if typing_indicator (config bot) then [room_typing_ room_id b] else [] in
  exists w' requests messages,
    dispatch bot room_id cmd_name args w = (Ok tt, w')
    /\ trace w' = trace w ++ typing true ++ requests ++ messages ++ typing false
    /\ Forall (fun c => is_http c = true) requests
    /\ Forall (fun c => is_message_to room_id c = true) messages
    /\ ((0 <= max_message_length (config bot))%Z -> messages <> []).
Proof.
  intros Hg typing.
  unfold dispatch. rewrite Hg. unfold bind at 1.
  unfold room_typing. rewrite when_chat. fold (typing true).
  set (w1 := after_calls (typing true) w).
  destruct (handlers_are_isolated_aux cmd bot args w1) as (r & wa & cs & Hrun & Hta & Hcs).
  unfold try_finally, try_except, bind. rewrite Hrun.
  destruct (send_result_outcome (config bot) room_id r wa)
    as [(e & Hsend)|(ms & Hsend & Hms & Hne)]; rewrite Hsend.
  - change (send_text_message room_id ("Error executing command: " +:+ exn_str e) wa)
      with (Ok tt, log (send_text_message_ room_id
                          ("Error executing command: " +:+ exn_str e)) wa).
    cbv beta iota. rewrite when_chat. fold (typing false).
    eexists _, cs, [_]. split; [reflexivity|].
    cbn [trace after_calls log]. rewrite Hta. cbn [w1 trace after_calls].
    rewrite <- !app_assoc. repeat split; auto.
    constructor; [|constructor]. simpl. apply String.eqb_refl.
  - rewrite when_chat. fold (typing false).
    eexists _, cs, ms. split; [reflexivity|].
    cbn [trace after_calls]. rewrite Hta. cbn [w1 trace after_calls].
    rewrite <- !app_assoc. repeat split; auto.
Qed.

Lemma after_calls_app (a b : list Call) (w : World) :
  after_calls b (after_calls a w) = after_calls (a ++ b) w.
Proof. unfold after_calls. simpl. now rewrite app_assoc. Qed.

(** X5. The run of a registered command.  The dispatcher does not raise.
    After the typing notice, when the indicator is on, the handler runs; it
    returns a result, having made only requests to the control-plane.  Then
    the messages are sent: those by which [_send_result] delivers that very
    result, or, when [_send_result] raises, the one text of that error.  All
    go to the room the command came from, and unless the limit is negative
    there is at least one: every command is answered.  Last comes the end of
    the typing notice, when the indicator is on, and nothing else. *)
Theorem command_run (bot : Bot) (room_id : string) (event : Event)
        (cmd_name args : string) (cmd : Command) (w : World) :
  parse_message bot room_id event = Some (cmd_name, args) ->
  Dict.get cmd_name (commands bot) = Some cmd ->
  exists r wa requests messages,
    execute cmd bot args
      (after_calls (if typing_indicator (config bot)
                    then [room_typing_ room_id true] else []) w)
    = (Ok r, wa)
    /\ trace wa
       = trace w
         ++ (if typing_indicator (config bot) then [room_typing_ room_id true] else [])
         ++ requests
    /\ Forall (fun c => is_http c = true) requests
    /\ (_send_result (config bot) room_id r wa = (Ok tt, after_calls messages wa)
        \/ exists e,
            _send_result (config bot) room_id r wa = (Raise e, wa)
            /\ messages
               = [send_text_message_ room_id
                    ("Error executing command: " +:+ exn_str e)])
    /\ handle_message bot room_id event w
       = (Ok tt,
          after_calls
            (messages
             ++ (if typing_indicator (config bot)
                 then [room_typing_ room_id false] else [])) wa)
    /\ Forall (fun c => is_message_to room_id c = true) messages
    /\ ((0 <= max_message_length (config bot))%Z -> messages <> []).
Proof.
  intros Hp Hg. rewrite handle_message_stages, Hp.
  unfold dispatch. rewrite Hg. unfold bind at 1.
  unfold room_typing. rewrite when_chat.
  set (w1 := after_calls (if typing_indicator (config bot)
                          then [room_typing_ room_id true] else []) w).
  destruct (handlers_are_isolated_aux cmd bot args w1)
    as (r & wa & cs & Hrun & Hta & Hcs).
  cbn [w1 trace after_calls] in Hta. rewrite <- app_assoc in Hta.
  exists r, wa, cs.
  unfold try_finally, try_except, bind. rewrite Hrun.
  destruct (send_result_outcome (config bot) room_id r wa)
    as [(e & Hsend)|(ms & Hsend & Hms & Hne)]; rewrite Hsend.
  - exists [send_text_message_ room_id ("Error executing command: " +:+ exn_str e)].
    change (send_text_message room_id ("Error executing command: " +:+ exn_str e) wa)
      with (Ok tt, after_calls
                     [send_text_message_ room_id
                        ("Error executing command: " +:+ exn_str e)] wa).
    cbv beta iota. rewrite when_chat, after_calls_app.
    split; [reflexivity|]. split; [exact Hta|]. split; [exact Hcs|].
    split; [right; eauto|]. split; [reflexivity|].
    split; [|discriminate].
    constructor; [|constructor]. simpl. apply String.eqb_refl.
  - exists ms. rewrite when_chat, after_calls_app.
    split; [reflexivity|]. split; [exact Hta|]. split; [exact Hcs|].
    split; [now left|]. split; [reflexivity|]. split; assumption.
Qed.

Lemma command_run_witness :
  exists r wa requests messages,
    execute {| oid := 0; cls := BuildCommand |} (Sample.bot_of Sample.cfg)
            "fix the login bug"
            (after_calls [room_typing_ "!room" true] Sample.w0) = (Ok r, wa)
    /\ trace wa = [room_typing_ "!room" true] ++ requests
    /\ _send_result Sample.cfg "!room" r wa = (Ok tt, after_calls messages wa)
    /\ handle_message (Sample.bot_of Sample.cfg) "!room"
                      (Sample.text "@alice:example.org" "/build fix the login bug")
                      Sample.w0
       = (Ok tt, after_calls (messages ++ [room_typing_ "!room" false]) wa)
    /\ messages <> [].
Proof.
  destruct (command_run (Sample.bot_of Sample.cfg) "!room"
              (Sample.text "@alice:example.org" "/build fix the login bug")
              "build" "fix the login bug" {| oid := 0; cls := BuildCommand |}
              Sample.w0 eq_refl eq_refl)
    as (r & wa & requests & messages & Hrun & Ht & _ & Hsend & Hall & _ & Hm).
  exists r, wa, requests, messages.
  split; [exact Hrun|]. split; [exact Ht|]. split.
  - destruct Hsend as [Hsend|(e & Hsend & _)]; [exact Hsend|].
    exfalso. revert Hsend. vm_compute in Hrun. injection Hrun as <- <-.
    vm_compute. discriminate.
  - split; [exact Hall|]. apply Hm. discriminate.
Defined.

(** X6. The dispatcher never raises, whatever the message, and talks only
    to the control-plane and to the room the message came from: every call
    it adds is a request, or a message or typing notice to that room. *)
Theorem dispatcher_stays_in_room (bot : Bot) (room_id : string) (event : Event)
        (w : World) :
  exists w' cs,
    handle_message bot room_id event w = (Ok tt, w')
    /\ trace w' = trace w ++ cs
    /\ Forall (fun c => is_http c = true \/ is_message_to room_id c = true
                        \/ exists b, c = room_typing_ room_id b) cs.
Proof.
  rewrite handle_message_stages.
  destruct (parse_message bot room_id event) as [[cmd_name args]|].
  - destruct (Dict.get cmd_name (commands bot)) as [cmd|] eqn:Hg.
    + destruct (dispatch_run bot room_id cmd_name args cmd w Hg)
        as (w' & rs & ms & Hrun & Ht & Hrs & Hms & _).
      eexists w', _. split; [exact Hrun|]. split; [exact Ht|].
      repeat apply Forall_app_2.
      * destruct (typing_indicator (config bot));
          [constructor; [right; right; eauto|]|]; constructor.
      * eapply Forall_impl; [exact Hrs|]. cbv beta. auto.
      * eapply Forall_impl; [exact Hms|]. cbv beta. auto.
      * destruct (typing_indicator (config bot));
          [constructor; [right; right; eauto|]|]; constructor.
    + unfold dispatch. rewrite Hg. unfold send_text_message. rewrite when_chat.
      eexists _, _. split; [reflexivity|]. split; [reflexivity|].
      destruct (unknown_command_reply (config bot)); [|constructor].
      constructor; [|constructor]. right. left. simpl. apply String.eqb_refl.
  - exists w, []. split; [reflexivity|]. split; [now rewrite app_nil_r|constructor].
Qed.

End Run.

(** ** The tokenizer *)

Section Tokenizer.

Lemma lstrip_head (s : string) (c : ascii) (s' : string) :
  Str.lstrip s = String c s' -> Str.isspace c = false.
Proof.
  induction s as [|d s IH]; simpl; [discriminate|].
  destruct (Str.isspace d) eqn:E; [exact IH|].
  now intros [= <- <-].
Qed.

Lemma split1_spec (s tok : string) (rest : list string) :
  Str.split1 s = tok :: rest ->
  tok <> EmptyString
  /\ (rest = [] \/ exists c r, rest = [String c r] /\ Str.isspace c = false).
Proof.
  unfold Str.split1. destruct (Str.lstrip s) as [|c s1] eqn:E; [discriminate|].
  apply lstrip_head in E. simpl. rewrite E.
  destruct (Str.span_word s1) as [w r].
  destruct (Str.lstrip r) as [|d r1] eqn:Er; intros [= <- <-].
  - split; [discriminate|now left].
  - split; [discriminate|]. right. exists d, r1. split; [reflexivity|].
    now apply lstrip_head in Er.
Qed.

Lemma strip_head (c : ascii) (s : string) :
  Str.isspace c = false -> Str.truthy (Str.strip (String c s)) = true.
Proof.
  intros Hc. unfold Str.strip. simpl. rewrite Hc. simpl.
  destruct (Str.rstrip s); [now rewrite Hc|reflexivity].
Qed.

Lemma lower_empty (s : string) : Str.lower s = EmptyString -> s = EmptyString.
Proof. destruct s; [reflexivity|discriminate]. Qed.

(** X7. What the tokenizer hands on.  The command token is not empty, and
    the arguments are either empty or open with a character that is not
    whitespace: a handler called by the dispatcher never gets arguments that
    are blank without being empty, nor arguments with leading whitespace. *)
Theorem parsed_arguments (bot : Bot) (room_id : string) (event : Event)
        (cmd_name args : string) :
  parse_message bot room_id event = Some (cmd_name, args) ->
  cmd_name <> EmptyString
  /\ Str.lstrip args = args
  /\ (args = EmptyString \/ Str.truthy (Str.strip args) = true).
Proof.
  unfold parse_message. destruct (sender event) as [s|]; [|discriminate].
  repeat match goal with
         | |- context [if ?b then _ else _] => destruct b; try discriminate
         end.
  destruct (Str.split1 _) as [|tok rest] eqn:E; [discriminate|].
  intros [= <- <-]. apply split1_spec in E as [Htok Hrest].
  split; [intros H; now apply lower_empty in H|].
  destruct Hrest as [->|(c & r & -> & Hc)].
  - split; [reflexivity|now left].
  - split; [simpl; now rewrite Hc|]. right. now apply strip_head.
Qed.

Lemma parsed_arguments_witness :
  Str.lstrip "fix  the bug  " = "fix  the bug  "
  /\ ("fix  the bug  " = EmptyString \/ Str.truthy (Str.strip "fix  the bug  ") = true).
Proof.
  apply (parsed_arguments (Sample.bot_of Sample.cfg) "!room"
           (Sample.text "@alice:example.org" "/BUILD    fix  the bug  ")
           "build" "fix  the bug  ").
  reflexivity.
Defined.

End Tokenizer.

(** ** Build and plan *)

Section Tasks.

Lemma append_assoc (a b c : string) : (a +:+ b) +:+ c = a +:+ (b +:+ c).
Proof.
  induction a as [|x a IH]; [reflexivity|].
  now rewrite !append_cons, IH.
Qed.

Lemma prefix_append (n q : string) : String.prefix n (n +:+ q) = true.
Proof.
  induction n as [|c n IH]; [now destruct q|].
  rewrite append_cons. simpl. destruct (ascii_dec c c); [exact IH|congruence].
Qed.

Lemma contains_cons (n : string) (c : ascii) (h : string) :
  Str.contains n (String c h) = String.prefix n (String c h) || Str.contains n h.
Proof. reflexivity. Qed.

Lemma contains_here (n q : string) : Str.contains n (n +:+ q) = true.
Proof.
  destruct (n +:+ q) as [|c h] eqn:E.
  - destruct n; [reflexivity|discriminate].
  - rewrite contains_cons, <- E, prefix_append. reflexivity.
Qed.

Lemma contains_skip (p n q : string) :
  Str.contains n q = true -> Str.contains n (p +:+ q) = true.
Proof.
  intros H. induction p as [|c p IH]; [exact H|].
  rewrite append_cons, contains_cons, IH. apply orb_true_r.
Qed.

(** The text of the failure of a task command. *)
Lemma task_run (cmd : Command) (bot : Bot) (args : string) :
  cls cmd = BuildCommand \/ cls cmd = PlanCommand ->
  Str.truthy (Str.strip args) = true ->
  exists started failed,
    execute cmd bot args
    = try_except
        (session <- get_or_create_session ;;
         send_message_async (Session.id session) args (Some (name cmd)) None ;;
         ret {| success := true;
                message := started +:+ Str.LF +:+ "Session: "
                           +:+ short_id (Session.id session) +:+ Str.LF +:+ Str.LF
                           +:+ "I'll notify you when it's complete.";
                data := Some [("session_id", Session.id session)] |})
        (fun e => ret (result false (failed +:+ exn_str e)))
    /\ (cls cmd = BuildCommand -> failed = "Failed to start task: ")
    /\ (cls cmd = PlanCommand -> failed = "Failed to start analysis: ").
Proof.
  intros Hcls Hargs. unfold execute, name.
  destruct Hcls as [-> | ->];
    unfold BuildCommand_execute, PlanCommand_execute; rewrite Hargs;
    eexists _, _; (split; [reflexivity|split; [try reflexivity|try reflexivity]]);
    discriminate.
Qed.

(** X8. A task starts.  Build and plan, given an argument that is not
    blank, an empty binding and no transport fault, create one session and
    send one prompt to it: the argument as it was given, untrimmed, as the
    only text part, the command's name as the agent, and no model.  The
    result is a success, carries the new session id as [session_id], and
    shows its first eight characters; the binding holds the new session. *)
Theorem task_started (cmd : Command) (bot : Bot) (args : string) (w : World) :
  cls cmd = BuildCommand \/ cls cmd = PlanCommand ->
  Str.truthy (Str.strip args) = true ->
  active_session w = None ->
  fault_free 2 (server w) ->
  exists r w' s,
    execute cmd bot args w = (Ok r, w')
    /\ success r = true
    /\ data r = Some [("session_id", Session.id s)]
    /\ Str.contains (Str.take 8 (Session.id s)) (message r) = true
    /\ Session.id s = new_id (srv_created (server w))
    /\ active_session w' = Some s
    /\ trace w'
       = trace w
         ++ [creation;
             HttpPost send_message_async_
               ("/session/" +:+ Session.id s +:+ "/prompt_async")
               (Some (send_message_body args (Some (name cmd)) None))]
    /\ send_message_body args (Some (name cmd)) None
       = {[ "parts" := JList [JDict [("type", JStr "text"); ("text", JStr args)]];
            "agent" := JStr (name cmd) ]}.
Proof.
  intros Hcls Hargs Hnone Hff.
  destruct (task_run cmd bot args Hcls Hargs) as (started & failed & -> & _).
  destruct (fault_free_next 1 _ Hff) as [Hok1 Hff1].
  destruct (fault_free_next 0 _ Hff1) as [Hok2 _].
  destruct (get_or_create_empty w Hnone Hok1)
    as (s & w1 & Hrun & Hb & _ & Ht & Hid & Hsess & Hfaults).
  assert (Hok : fst (next_fault (server w1)) = false)
    by now rewrite (next_fault_faults _ _ Hfaults).
  destruct (find_session_last (srv_sessions (server w)) s) as [y Hy].
  unfold try_except, bind. rewrite Hrun.
  unfold send_message_async. rewrite (http_run _ _ _ Hok).
  unfold serve_prompt_async.
  destruct (tick_sessions (server w1)) as [-> _]. rewrite Hsess, Hy.
  cbn [fst snd ret]. eexists _, _, s. split; [reflexivity|].
  cbn [success data message trace active_session set_server log].
  rewrite Hb, Ht, <- app_assoc.
  repeat split; auto.
  - unfold short_id. rewrite append_assoc.
    do 3 apply contains_skip. apply contains_here.
  - unfold send_message_body, name.
    destruct Hcls as [-> | ->]; vm_compute; reflexivity.
Qed.

Lemma task_started_witness :
  exists r w' s,
    execute {| oid := 0; cls := BuildCommand |} (Sample.bot_of Sample.cfg)
            "fix the login bug" Sample.w0 = (Ok r, w')
    /\ success r = true
    /\ Session.id s = "ses_0"
    /\ data r = Some [("session_id", Session.id s)]
    /\ active_session w' = Some s.
Proof.
  destruct (task_started {| oid := 0; cls := BuildCommand |} (Sample.bot_of Sample.cfg)
              "fix the login bug" Sample.w0 (or_introl eq_refl) eq_refl eq_refl eq_refl)
    as (r & w' & s & Hrun & Hs & Hd & _ & Hid & Hb & _).
  exists r, w', s. repeat split; auto.
Defined.

(** X9. A task that cannot start.  When the binding is empty and the
    creation request meets a transport fault, build and plan return a failed
    result whose message opens with their failure text; the creation is the
    only request made, no prompt is sent, and the binding stays empty. *)
Theorem task_not_started (cmd : Command) (bot : Bot) (args : string) (w : World)
        (f : list bool) :
  cls cmd = BuildCommand \/ cls cmd = PlanCommand ->
  Str.truthy (Str.strip args) = true ->
  active_session w = None ->
  srv_faults (server w) = true :: f ->
  exists r w' detail,
    execute cmd bot args w = (Ok r, w')
    /\ success r = false
    /\ message r
       = match cls cmd with
         | BuildCommand => "Failed to start task: "
         | _ => "Failed to start analysis: "
         end +:+ detail
    /\ trace w' = trace w ++ [creation]
    /\ active_session w' = None.
Proof.
  intros Hcls Hargs Hnone Hf.
  destruct (task_run cmd bot args Hcls Hargs) as (started & failed & -> & Hb & Hp).
  unfold try_except, bind at 1. unfold get_or_create_session, bind, get_world.
  rewrite Hnone. unfold ret at 1. unfold create_session, http, next_fault.
  cbn [server log]. rewrite Hf.
  eexists _, _, _. split; [reflexivity|].
  cbn [success message result trace active_session set_server log].
  repeat split; auto.
  destruct Hcls as [Hc|Hc]; rewrite Hc; [rewrite (Hb Hc)|rewrite (Hp Hc)]; reflexivity.
Qed.

Lemma task_not_started_witness :
  exists r w',
    execute {| oid := 1; cls := PlanCommand |} (Sample.bot_of Sample.cfg)
            "review the diff"
            (set_server (set_srv_faults [true] Sample.srv) Sample.w0) = (Ok r, w')
    /\ success r = false
    /\ trace w' = [creation]
    /\ active_session w' = None.
Proof.
  destruct (task_not_started {| oid := 1; cls := PlanCommand |}
              (Sample.bot_of Sample.cfg) "review the diff"
              (set_server (set_srv_faults [true] Sample.srv) Sample.w0) []
              (or_intror eq_refl) eq_refl eq_refl eq_refl)
    as (r & w' & detail & Hrun & Hs & _ & Ht & Hb).
  exists r, w'. auto.
Defined.

End Tasks.

(** ** The registry, for any list of command classes *)

Section RegistryLaws.

Lemma get_set_eq {V} (k : string) (v : V) (d : Dict.t V) :
  Dict.get k (Dict.set k v d) = Some v.
Proof.
  induction d as [|[k' v'] d IH]; simpl.
  - now rewrite String.eqb_refl.
  - destruct (String.eqb k k') eqn:E; simpl; rewrite E; auto.
Qed.

Lemma get_set_ne {V} (k k' : string) (v : V) (d : Dict.t V) :
  k <> k' -> Dict.get k' (Dict.set k v d) = Dict.get k' d.
Proof.
  intros Hne. induction d as [|[k0 v0] d IH]; simpl.
  - destruct (String.eqb_spec k' k); [congruence|reflexivity].
  - destruct (String.eqb_spec k k0) as [->|Hk]; simpl.
    + destruct (String.eqb_spec k' k0); [congruence|reflexivity].
    + now rewrite IH.
Qed.

Lemma get_set {V} (k k' : string) (v : V) (d : Dict.t V) :
  Dict.get k' (Dict.set k v d) = if String.eqb k' k then Some v else Dict.get k' d.
Proof.
  destruct (String.eqb_spec k' k) as [->|Hne].
  - apply get_set_eq.
  - apply get_set_ne. congruence.
Qed.

Lemma keys_set {V} (k k' : string) (v : V) (d : Dict.t V) :
  In k' (Dict.keys (Dict.set k v d)) <-> k' = k \/ In k' (Dict.keys d).
Proof.
  induction d as [|[k0 v0] d IH]; simpl.
  - intuition.
  - destruct (String.eqb_spec k k0) as [->|Hk]; simpl.
    + intuition.
    + rewrite IH. intuition.
Qed.

Lemma nodup_keys_set {V} (k : string) (v : V) (d : Dict.t V) :
  NoDup (Dict.keys d) -> NoDup (Dict.keys (Dict.set k v d)).
Proof.
  induction d as [|[k0 v0] d IH]; simpl; intros Hnd.
  - apply NoDup_singleton.
  - apply NoDup_cons in Hnd as [Hin Hnd].
    destruct (String.eqb_spec k k0) as [->|Hk]; simpl.
    + apply NoDup_cons. auto.
    + apply NoDup_cons. split; [|auto].
      rewrite list_elem_of_In, keys_set. intros [->|H]; [congruence|].
      apply Hin. now apply list_elem_of_In.
Qed.

Lemma get_none_keys {V} (k : string) (d : Dict.t V) :
  Dict.get k d = None <-> ~ In k (Dict.keys d).
Proof.
  induction d as [|[k0 v0] d IH]; simpl; [intuition|].
  destruct (String.eqb_spec k k0) as [->|Hk].
  - split; [discriminate|]. intros H. exfalso. auto.
  - rewrite IH. intuition.
Qed.

Lemma register_fold (cmd : Command) (k : string) (l : list string) :
  forall d,
    Dict.get k (fold_left (fun d alias => Dict.set alias cmd d) l d)
    = if existsb (String.eqb k) l then Some cmd else Dict.get k d.
Proof.
  induction l as [|a l IH]; intros d; simpl; [reflexivity|].
  rewrite IH, get_set.
  destruct (String.eqb k a), (existsb (String.eqb k) l); reflexivity.
Qed.

Lemma register_keys (cmd : Command) (k : string) (l : list string) :
  forall d,
    In k (Dict.keys (fold_left (fun d alias => Dict.set alias cmd d) l d))
    <-> In k l \/ In k (Dict.keys d).
Proof.
  induction l as [|a l IH]; intros d; simpl; [intuition|].
  rewrite IH, keys_set. intuition.
Qed.

Lemma register_nodup (cmd : Command) (l : list string) :
  forall d : Dict.t Command,
    NoDup (Dict.keys d) ->
    NoDup (Dict.keys (fold_left (fun d alias => Dict.set alias cmd d) l d)).
Proof.
  induction l as [|a l IH]; intros d Hd; simpl; [exact Hd|].
  apply IH. now apply nodup_keys_set.
Qed.

Lemma register_get (d : Dict.t Command) (cmd : Command) (k : string) :
  Dict.get k (register d cmd)
  = if existsb (String.eqb k) (name cmd :: aliases cmd) then Some cmd
    else Dict.get k d.
Proof.
  unfold register. rewrite register_fold, get_set. simpl.
  destruct (String.eqb k (name cmd)), (existsb (String.eqb k) (aliases cmd));
    reflexivity.
Qed.

(** X10. Registering a command.  After the body of the loop of [__init__]
    has run for an instance, its name and each of its aliases resolve to
    that instance, whatever they resolved to before, and every other key
    resolves as before. *)
Theorem register_lookup (d : Dict.t Command) (cmd : Command) (k : string) :
  (In k (name cmd :: aliases cmd) -> Dict.get k (register d cmd) = Some cmd)
  /\ (~ In k (name cmd :: aliases cmd) ->
      Dict.get k (register d cmd) = Dict.get k d).
Proof.
  rewrite register_get.
  destruct (existsb (String.eqb k) (name cmd :: aliases cmd)) eqn:E.
  - split; [reflexivity|]. intros H. apply existsb_eqb_In in E. contradiction.
  - split; [|reflexivity]. intros H. apply existsb_eqb_In in H. congruence.
Qed.

Lemma register_lookup_witness :
  Dict.get "b" (register [("b", {| oid := 7; cls := HelpCommand |})]
                         {| oid := 0; cls := BuildCommand |})
  = Some {| oid := 0; cls := BuildCommand |}.
Proof.
  apply (proj1 (register_lookup [("b", {| oid := 7; cls := HelpCommand |})]
                  {| oid := 0; cls := BuildCommand |} "b")).
  simpl. auto.
Defined.

Lemma values_get {V} (d : Dict.t V) (v : V) :
  NoDup (Dict.keys d) -> In v (Dict.values d) -> exists k, Dict.get k d = Some v.
Proof.
  induction d as [|[k0 v0] d IH]; simpl; intros Hnd Hin; [contradiction|].
  apply NoDup_cons in Hnd as [Hk0 Hnd].
  destruct Hin as [->|Hin].
  - exists k0. now rewrite String.eqb_refl.
  - destruct (IH Hnd Hin) as [k Hk]. exists k.
    destruct (String.eqb_spec k k0) as [->|_]; [|exact Hk].
    exfalso. apply Hk0. apply list_elem_of_In.
    destruct (In_dec string_dec k0 (Dict.keys d)) as [H|H]; [exact H|].
    apply get_none_keys in H. congruence.
Qed.

Lemma find_by_alias_some (k : string) (cs : list Command) (c : Command) :
  find_by_alias k cs = Some c -> In c cs /\ In k (aliases c).
Proof.
  induction cs as [|x cs IH]; simpl; [discriminate|].
  destruct (existsb (String.eqb k) (aliases x)) eqn:E.
  - intros [= <-]. apply existsb_eqb_In in E. auto.
  - intros H. apply IH in H. tauto.
Qed.

Lemma register_inv (done : list CommandClass) (d : Dict.t Command) (cmd : Command) :
  registry_inv done d -> registry_inv (done ++ [cls cmd]) (register d cmd).
Proof.
  intros (Hnd & Hsound & Hal).
  assert (Hkeys : forall k, In k (Dict.keys (register d cmd))
                            <-> In k (name cmd :: aliases cmd) \/ In k (Dict.keys d)).
  { intros k. unfold register. rewrite register_keys, keys_set. simpl. intuition. }
  split; [|split].
  - unfold register. apply register_nodup. now apply nodup_keys_set.
  - intros k c. rewrite register_get.
    destruct (existsb (String.eqb k) (name cmd :: aliases cmd)) eqn:E.
    + intros [= <-]. apply existsb_eqb_In in E. split; [exact E|].
      apply in_or_app. right. now left.
    + intros H. destruct (Hsound k c H) as [H1 H2]. split; [exact H1|].
      apply in_or_app. now left.
  - intros k0 c a. rewrite register_get, Hkeys.
    destruct (existsb (String.eqb k0) (name cmd :: aliases cmd)).
    + intros [= <-] Ha. left. now right.
    + intros H Ha. right. eapply Hal; eauto.
Qed.

Lemma register_all_inv (classes : list CommandClass) :
  forall done first d,
    registry_inv done d ->
    registry_inv (done ++ classes) (register_all classes first d).
Proof.
  induction classes as [|c classes IH]; intros done first d Hinv; simpl.
  - now rewrite app_nil_r.
  - replace (done ++ c :: classes) with ((done ++ [c]) ++ classes)
      by now rewrite <- app_assoc.
    apply IH. exact (register_inv done d {| oid := first; cls := c |} Hinv).
Qed.

Lemma registry_inv_holds (classes : list CommandClass) (first : nat) :
  registry_inv classes (register_all classes first Dict.empty).
Proof.
  apply (register_all_inv classes [] first Dict.empty).
  split; [apply NoDup_nil_2|]. split; [discriminate|discriminate].
Qed.

Lemma alias_loop_redundant (classes : list CommandClass) (d : Dict.t Command)
      (k : string) :
  registry_inv classes d ->
  Dict.get k d = None -> find_by_alias k (Dict.values d) = None.
Proof.
  intros (Hnd & _ & Hal) Hnone.
  destruct (find_by_alias k (Dict.values d)) as [c|] eqn:E; [|reflexivity].
  apply find_by_alias_some in E as [Hc Hk].
  destruct (values_get d c Hnd Hc) as [k0 Hk0].
  apply get_none_keys in Hnone. exfalso. apply Hnone. eauto.
Qed.

(** X11. The registry, for any list of command classes.  The keys of the
    registry [__init__] builds are distinct; a key resolves only to an
    instance that declares it as its name or an alias, of a class of the
    list; and a token the lookup misses is no alias of any instance in the
    registry, so the loop over the values in the help for one command never
    finds what the lookup did not. *)
Theorem registry_is_sound (classes : list CommandClass) (first : nat) :
  NoDup (Dict.keys (register_all classes first Dict.empty))
  /\ (forall k c,
        Dict.get k (register_all classes first Dict.empty) = Some c ->
        In k (name c :: aliases c) /\ In (cls c) classes)
  /\ (forall k,
        Dict.get k (register_all classes first Dict.empty) = None ->
        find_by_alias k (Dict.values (register_all classes first Dict.empty)) = None).
Proof.
  pose proof (registry_inv_holds classes first) as Hinv.
  split; [apply Hinv|]. split; [apply Hinv|].
  intros k. now apply (alias_loop_redundant classes).
Qed.

Lemma registry_is_sound_witness :
  In "st" (name {| oid := 2; cls := StatusCommand |}
           :: aliases {| oid := 2; cls := StatusCommand |})
  /\ find_by_alias "deploy" (Dict.values (register_all ALL_COMMANDS 0 Dict.empty))
     = None.
Proof.
  destruct (registry_is_sound ALL_COMMANDS 0) as (_ & Hsound & Hloop).
  split.
  - apply (Hsound "st" {| oid := 2; cls := StatusCommand |}). reflexivity.
  - apply Hloop. reflexivity.
Defined.

End RegistryLaws.

(** ** Help for one command, abort, and the commands that only read *)

Section Readers.

Lemma registry_keys_truthy :
  Forall (fun k => Str.truthy k = true) (Dict.keys init_commands).
Proof. vm_compute. repeat constructor. Qed.

Lemma casing_truthy (t k : string) :
  Str.is_casing_of t k = true -> Str.truthy k = true -> Str.truthy t = true.
Proof. destruct t, k; simpl; congruence. Qed.

(** X12. Help for one command.  On the registry of [__init__], an argument
    that is, once stripped, the name or an alias of a command in any
    letter-casing gets the help of that command, which shows its name, its
    description and its declared usage; no call is made. *)
Theorem help_for_command (cfg : Config) (mm : string -> Event -> Res bool)
        (cmd : Command) (k args : string) (w : World) :
  In cmd (Dict.values init_commands) ->
  In k (name cmd :: aliases cmd) ->
  Str.is_casing_of (Str.strip args) k = true ->
  HelpCommand_execute {| config := cfg; commands := init_commands;
                         is_not_from_this_bot := mm |} args w
  = (Ok (result true (help_for cmd)), w)
  /\ Str.contains ("/" +:+ name cmd) (help_for cmd) = true
  /\ Str.contains (description cmd) (help_for cmd) = true
  /\ Str.contains (usage cmd) (help_for cmd) = true.
Proof.
  intros Hin Hk Hcase.
  pose proof (registry_entries cmd Hin) as Hall. rewrite Forall_forall in Hall.
  apply list_elem_of_In in Hk as Hk'. destruct (Hall k Hk') as [Hlow Hget].
  assert (Hkey : In k (Dict.keys init_commands)).
  { destruct (In_dec string_dec k (Dict.keys init_commands)) as [H|H]; [exact H|].
    apply get_none_keys in H. congruence. }
  pose proof registry_keys_truthy as Htr. rewrite Forall_forall in Htr.
  apply list_elem_of_In in Hkey. apply Htr in Hkey.
  split; [|split; [|split]].
  - unfold HelpCommand_execute. rewrite (casing_truthy _ _ Hcase Hkey).
    cbn [commands]. rewrite (casing_lower _ _ Hcase), Hlow, Hget. reflexivity.
  - unfold help_for. cbv zeta.
    match goal with
    | |- context [ "**/" +:+ ?x ] =>
        change ("**/" +:+ x) with ("**" +:+ "/" +:+ x)
    end.
    apply contains_skip. rewrite <- append_assoc. apply contains_here.
  - unfold help_for. cbv zeta. do 6 apply contains_skip. apply contains_here.
  - unfold help_for. cbv zeta. do 10 apply contains_skip. apply contains_here.
Qed.

Lemma help_for_command_witness :
  HelpCommand_execute (Sample.bot_of Sample.cfg) "  ST " Sample.w0
  = (Ok (result true (help_for {| oid := 2; cls := StatusCommand |})), Sample.w0).
Proof.
  apply (help_for_command Sample.cfg _ {| oid := 2; cls := StatusCommand |}
           "st" "  ST " Sample.w0).
  - vm_compute. auto 10.
  - simpl. auto.
  - reflexivity.
Defined.

(** X13. Help for an unknown command.  On a registry built by [__init__]
    from any list of classes, an argument whose stripped, lower-cased form
    is no key gets a failed result that quotes that form; no call is
    made. *)
Theorem help_for_unknown (cfg : Config) (mm : string -> Event -> Res bool)
        (classes : list CommandClass) (first : nat) (args : string) (w : World) :
  Str.truthy (Str.strip args) = true ->
  Dict.get (Str.lower (Str.strip args)) (register_all classes first Dict.empty) = None ->
  HelpCommand_execute {| config := cfg;
                         commands := register_all classes first Dict.empty;
                         is_not_from_this_bot := mm |} args w
  = (Ok (result false ("Unknown command: " +:+ Str.lower (Str.strip args))), w).
Proof.
  intros Hargs Hnone. unfold HelpCommand_execute. rewrite Hargs. cbn [commands].
  rewrite Hnone.
  rewrite (alias_loop_redundant classes _ _ (registry_inv_holds classes first) Hnone).
  reflexivity.
Qed.

Lemma help_for_unknown_witness :
  HelpCommand_execute (Sample.bot_of Sample.cfg) "Deploy" Sample.w0
  = (Ok (result false "Unknown command: deploy"), Sample.w0).
Proof.
  apply (help_for_unknown Sample.cfg _ ALL_COMMANDS 0 "Deploy" Sample.w0);
    reflexivity.
Defined.

Lemma next_fault_frame (s : Server) :
  srv_sessions (snd (next_fault s)) = srv_sessions s
  /\ srv_status (snd (next_fault s)) = srv_status s
  /\ srv_agents (snd (next_fault s)) = srv_agents s
  /\ srv_created (snd (next_fault s)) = srv_created s.
Proof. unfold next_fault. destruct s as [ss st ag cr [|b f]]; auto. Qed.

(** X14. Abort with a session id.  Given an argument that is not blank,
    abort makes one request, the abort of the session named by the stripped
    argument, without asking for the status first; a success names the
    first eight characters of that id; the binding is left alone. *)
Theorem abort_given_id (args : string) (w : World) :
  Str.truthy (Str.strip args) = true ->
  exists r w',
    AbortCommand_execute args w = (Ok r, w')
    /\ trace w'
       = trace w ++ [HttpPost abort_session_
                       ("/session/" +:+ Str.strip args +:+ "/abort") None]
    /\ active_session w' = active_session w
    /\ (success r = true ->
        message r = "Aborted session `" +:+ short_id (Str.strip args) +:+ "`").
Proof.
  intros Hargs. unfold AbortCommand_execute, try_except, bind. rewrite Hargs.
  unfold ret at 1. unfold abort_session, http. cbn [server log].
  destruct (next_fault (server w)) as [[] s].
  - eexists _, _. split; [reflexivity|]. repeat split. discriminate.
  - destruct (serve_abort_session (Str.strip args) s) as [[b|e] s'];
      eexists _, _; (split; [reflexivity|]); repeat split; discriminate.
Qed.

Lemma abort_given_id_witness :
  exists r w',
    AbortCommand_execute " ses_0 " Sample.w_cached = (Ok r, w')
    /\ trace w' = [HttpPost abort_session_ "/session/ses_0/abort" None].
Proof.
  destruct (abort_given_id " ses_0 " Sample.w_cached eq_refl)
    as (r & w' & Hrun & Ht & _).
  exists r, w'. auto.
Defined.

(** X15. Abort without a session id.  Given a blank argument and a status
    request that reaches the server, abort asks for the status, and then
    aborts the first session, in the order of the status answer, whose
    status is ["running"]; when there is none it makes no second request
    and returns the failure ["No running tasks to abort."]. *)
Theorem abort_first_running (args : string) (w : World) :
  Str.truthy (Str.strip args) = false ->
  fst (next_fault (server w)) = false ->
  exists r w',
    AbortCommand_execute args w = (Ok r, w')
    /\ match map fst (filter (fun '(_, st) =>
                                String.eqb (SessionStatus.status st) "running")
                             (parse_status (srv_status (server w)))) with
       | [] =>
           r = result false "No running tasks to abort."
           /\ trace w' = trace w ++ [HttpGet get_session_status_ "/session/status"]
       | sid :: _ =>
           trace w'
           = trace w ++ [HttpGet get_session_status_ "/session/status";
                         HttpPost abort_session_ ("/session/" +:+ sid +:+ "/abort") None]
       end.
Proof.
  intros Hargs Hok. unfold AbortCommand_execute, try_except, bind. rewrite Hargs.
  unfold get_session_status. rewrite (http_run _ _ _ Hok). cbn [fst snd ret].
  unfold tick. destruct (next_fault_frame (server w)) as (_ & -> & _).
  destruct (map fst _) as [|sid running].
  - eexists _, _. split; [reflexivity|]. split; reflexivity.
  - unfold abort_session, http. cbn [server log set_server].
    destruct (next_fault (snd (next_fault (server w)))) as [[] s].
    + eexists _, _. split; [reflexivity|]. cbn [trace set_server log].
      now rewrite <- app_assoc.
    + destruct (serve_abort_session sid s) as [[b|e] s'];
        eexists _, _; (split; [reflexivity|]); cbn [trace set_server log];
        now rewrite <- app_assoc.
Qed.

Lemma abort_first_running_witness :
  exists r w',
    AbortCommand_execute EmptyString Sample.w0 = (Ok r, w')
    /\ r = result false "No running tasks to abort."
    /\ trace w' = [HttpGet get_session_status_ "/session/status"].
Proof.
  destruct (abort_first_running EmptyString Sample.w0 eq_refl eq_refl)
    as (r & w' & Hrun & Hr & Ht).
  exists r, w'. auto.
Defined.

(** X16. The commands that only read.  Status, sessions and agents make
    exactly one request, a GET of their own endpoint, whatever the server
    answers and whether or not the transport fails; they return a result,
    and change neither the binding, nor the model preference, nor the
    sessions the server holds. *)
Theorem readers_make_one_request (cmd : Command) (bot : Bot) (args : string)
        (w : World) :
  cls cmd = StatusCommand \/ cls cmd = SessionsCommand \/ cls cmd = AgentsCommand ->
  exists r w',
    execute cmd bot args w = (Ok r, w')
    /\ trace w'
       = trace w
         ++ [match cls cmd with
             | StatusCommand => HttpGet get_session_status_ "/session/status"
             | SessionsCommand => HttpGet list_sessions_ "/session"
             | _ => HttpGet list_agents_ "/agent"
             end]
    /\ active_session w' = active_session w
    /\ current_model w' = current_model w
    /\ srv_sessions (server w') = srv_sessions (server w).
Proof.
  intros Hcls. unfold execute.
  destruct (next_fault_frame (server w)) as (Hs & _).
  destruct Hcls as [-> | [-> | ->]];
    unfold StatusCommand_execute, SessionsCommand_execute, AgentsCommand_execute,
      try_except, bind, get_session_status, list_sessions, list_agents, http;
    cbn [server log];
    destruct (next_fault (server w)) as [[] s]; cbn [snd] in Hs;
    try (eexists _, _; split; [reflexivity|]; repeat split; exact Hs).
  - destruct (parse_status (srv_status s));
      eexists _, _; (split; [reflexivity|]); repeat split; exact Hs.
  - destruct (srv_sessions s) eqn:E;
      eexists _, _; (split; [reflexivity|]); repeat split;
      cbn [server set_server]; rewrite E; exact Hs.
  - destruct (srv_agents s);
      eexists _, _; (split; [reflexivity|]); repeat split; exact Hs.
Qed.

Lemma readers_make_one_request_witness :
  exists r w',
    execute {| oid := 3; cls := SessionsCommand |} (Sample.bot_of Sample.cfg)
            EmptyString Sample.w_cached = (Ok r, w')
    /\ trace w' = [HttpGet list_sessions_ "/session"]
    /\ active_session w' = Some Sample.ses.
Proof.
  destruct (readers_make_one_request {| oid := 3; cls := SessionsCommand |}
              (Sample.bot_of Sample.cfg) EmptyString Sample.w_cached
              (or_intror (or_introl eq_refl)))
    as (r & w' & Hrun & Ht & Hb & _).
  exists r, w'. auto.
Defined.

End Readers.

(** ** The client: optional parts of requests, and the connection handle *)

Section ClientLaws.

Ltac body_lookup :=
  repeat (rewrite lookup_insert_ne by congruence);
  rewrite ?lookup_insert_eq, ?lookup_singleton_eq;
  rewrite ?lookup_singleton_ne by congruence;
  rewrite ?lookup_empty; try reflexivity.

(** X17. The body of a prompt.  It always holds the content, untouched, as
    its one text part under ["parts"]; it holds ["agent"] and ["model"] when
    and only when the argument is a non-empty string, so the empty string
    counts as absent; and it holds no other key. *)
Theorem send_message_body_fields (content : string) (agent model : option string) :
  send_message_body content agent model !! "parts"
  = Some (JList [JDict [("type", JStr "text"); ("text", JStr content)]])
  /\ send_message_body content agent model !! "agent"
     = match agent with
       | Some (String c a) => Some (JStr (String c a))
       | _ => None
       end
  /\ send_message_body content agent model !! "model"
     = match model with
       | Some (String c m) => Some (JStr (String c m))
       | _ => None
       end
  /\ (forall k, k <> "parts" -> k <> "agent" -> k <> "model" ->
        send_message_body content agent model !! k = None)
  /\ send_message_body content (Some EmptyString) model
     = send_message_body content None model
  /\ send_message_body content agent (Some EmptyString)
     = send_message_body content agent None.
Proof.
  unfold send_message_body.
  destruct agent as [[|c a]|], model as [[|d m]|]; simpl;
    repeat split; try (intros k H1 H2 H3); body_lookup.
Qed.

Lemma send_message_body_fields_witness :
  send_message_body "fix the login bug" (Some "build") None !! "sessionID" = None.
Proof.
  destruct (send_message_body_fields "fix the login bug" (Some "build") None)
    as (_ & _ & _ & H & _).
  apply H; discriminate.
Defined.

(** X18. Optional arguments of the other requests.  [get_messages] sends
    no [limit] for the limit 0 as for none, and any other limit as it is;
    [get_diff] sends no [messageID] for the empty id as for none;
    [execute_command] always sends ["command"] and ["arguments"], the
    arguments even when empty, and treats an empty agent or model as
    absent. *)
Theorem optional_arguments (command arguments : string) (agent model : option string)
        (n : Z) (m : string) :
  get_messages_params (Some 0%Z) = get_messages_params None
  /\ get_messages_params (Some n) !! "limit" = (if (n =? 0)%Z then None else Some n)
  /\ get_diff_params (Some EmptyString) = get_diff_params None
  /\ get_diff_params (Some m) !! "messageID"
     = (if Str.truthy m then Some m else None)
  /\ execute_command_body command arguments agent model !! "command"
     = Some (JStr command)
  /\ execute_command_body command arguments agent model !! "arguments"
     = Some (JStr arguments)
  /\ execute_command_body command arguments (Some EmptyString) (Some EmptyString)
     = execute_command_body command arguments None None.
Proof.
  unfold get_messages_params, get_diff_params, execute_command_body.
  repeat split.
  - destruct (n =? 0)%Z; body_lookup.
  - destruct (Str.truthy m); body_lookup.
  - destruct agent as [[|c a]|], model as [[|d x]|]; simpl; body_lookup.
  - destruct agent as [[|c a]|], model as [[|d x]|]; simpl; body_lookup.
Qed.

Import Client.

Lemma is_closed_true (c : Client.t) (h : nat) :
  is_closed c h = true <-> In h (closed c).
Proof.
  unfold is_closed. rewrite existsb_exists. split.
  - intros (x & Hx & E). apply Nat.eqb_eq in E. now subst.
  - intros H. exists h. split; [exact H|apply Nat.eqb_refl].
Qed.

(** X19. The connection handle is made once and used again.  On a client
    whose handles are its own, [_get_client] returns a handle that is open;
    a second call returns the same handle and makes no new one; and as long
    as the handle stays open, so does every further call. *)
Theorem handle_is_reused (c : Client.t) :
  wf c ->
  let (h, c1) := _get_client c in
  wf c1
  /\ is_closed c1 h = false
  /\ _client c1 = Some h
  /\ _get_client c1 = (h, c1)
  /\ (opened c1 = opened c \/ (opened c1 = S (opened c) /\ h = opened c)).
Proof.
  intros Hwf. pose proof Hwf as [Hclosed Hcur].
  assert (Hfresh : is_closed c (opened c) = false).
  { apply not_true_is_false. rewrite is_closed_true. intros H.
    apply Hclosed in H. lia. }
  assert (Hnew : let c1 := {| base_url := base_url c; _client := Some (opened c);
                              opened := S (opened c); closed := closed c |} in
                 wf c1 /\ is_closed c1 (opened c) = false
                 /\ _client c1 = Some (opened c)
                 /\ _get_client c1 = (opened c, c1)
                 /\ (opened c1 = opened c
                     \/ (opened c1 = S (opened c) /\ opened c = opened c))).
  { intros c1. split; [|split; [|split; [|split]]].
    - split.
      + intros h' H. apply Hclosed in H. cbn. lia.
      + intros h' [= <-]. cbn. lia.
    - exact Hfresh.
    - reflexivity.
    - unfold _get_client. cbn [_client c1].
      change (is_closed _ (opened c)) with (is_closed c (opened c)).
      now rewrite Hfresh.
    - right. split; reflexivity. }
  unfold _get_client.
  destruct (_client c) as [h|] eqn:E; [|exact Hnew].
  destruct (is_closed c h) eqn:Ec; [exact Hnew|].
  split; [exact Hwf|]. split; [exact Ec|]. split; [exact E|].
  split; [|now left]. unfold _get_client. now rewrite E, Ec.
Qed.

Lemma handle_is_reused_witness :
  _get_client (snd (_get_client (init "http://127.0.0.1:4096/")))
  = (0, snd (_get_client (init "http://127.0.0.1:4096/"))).
Proof.
  assert (Hwf : wf (init "http://127.0.0.1:4096/"))
    by (split; [intros h []|discriminate]).
  pose proof (handle_is_reused _ Hwf) as H.
  destruct (_get_client (init "http://127.0.0.1:4096/")) as [h c1] eqn:E.
  destruct H as (_ & _ & _ & H & _).
  injection E as <- _. exact H.
Defined.

(** X20. Closing.  [close] closes the handle in use and forgets it; a
    second [close] changes nothing; and the next [_get_client] makes a new
    handle, which is open and is not the one that was closed. *)
Theorem close_then_reopen (c : Client.t) (h0 : nat) :
  wf c ->
  _client c = Some h0 ->
  close (close c) = close c
  /\ _client (close c) = None
  /\ is_closed (close c) h0 = true
  /\ wf (close c)
  /\ fst (_get_client (close c)) = opened c
  /\ fst (_get_client (close c)) <> h0
  /\ is_closed (snd (_get_client (close c))) (opened c) = false.
Proof.
  intros [Hclosed Hcur] E. unfold close. rewrite E. cbn [_client].
  pose proof (Hcur h0 E) as Hlt.
  repeat split.
  - unfold is_closed. cbn. now rewrite Nat.eqb_refl.
  - intros h [<-|H]; cbn; [exact Hlt|now apply Hclosed].
  - discriminate.
  - unfold _get_client. cbn. lia.
  - unfold _get_client. cbn [_client snd closed opened].
    apply not_true_is_false. rewrite is_closed_true. cbn [closed].
    intros [H|H]; [lia|]. apply Hclosed in H. lia.
Qed.

Lemma close_then_reopen_witness :
  let c := snd (_get_client (init "http://127.0.0.1:4096")) in
  close (close c) = close c /\ fst (_get_client (close c)) = 1.
Proof.
  destruct (close_then_reopen (snd (_get_client (init "http://127.0.0.1:4096"))) 0)
    as (H1 & _ & _ & _ & H2 & _).
  - split; cbn; [intros h []|intros h [= <-]; lia].
  - reflexivity.
  - split; [exact H1|exact H2].
Defined.

Lemma rstrip_slash_split (url : string) :
  exists tail,
    url = rstrip_slash url +:+ tail
    /\ Forall (fun ch => ch = "/"%char) (list_ascii_of_string tail).
Proof.
  induction url as [|c url (tail & IH & Hall)].
  - exists EmptyString. split; [reflexivity|constructor].
  - simpl. destruct (rstrip_slash url) as [|d r] eqn:E.
    + destruct (Ascii.eqb_spec c "/") as [->|Hc].
      * exists (String "/" tail). rewrite append_empty_l in IH |- *.
        split; [now rewrite <- IH|]. simpl. now constructor.
      * exists tail. rewrite append_empty_l in IH. rewrite !append_cons, append_empty_l.
        split; [now rewrite <- IH|exact Hall].
    + exists tail. rewrite !append_cons. split; [|exact Hall].
      rewrite append_cons in IH. now rewrite <- IH.
Qed.

Lemma rstrip_slash_last (url : string) (p : string) :
  rstrip_slash url <> p +:+ "/".
Proof.
  revert p. induction url as [|c url IH]; intros p; simpl.
  - destruct p; discriminate.
  - destruct (rstrip_slash url) as [|d r] eqn:E.
    + destruct (Ascii.eqb_spec c "/") as [->|Hc].
      * destruct p; discriminate.
      * destruct p as [|x [|y p]]; try discriminate. intros [= ->]. congruence.
    + destruct p as [|x p]; [discriminate|].
      rewrite append_cons. intros [= -> H]. exact (IH p H).
Qed.

(** X21. The base URL.  A new client keeps the URL it is given but for the
    slashes at its end, all of which it drops: the URL is the kept part
    followed by slashes only, and the kept part does not end with a slash.
    The client starts with no handle. *)
Theorem base_url_has_no_trailing_slash (url : string) :
  (exists tail,
      url = base_url (init url) +:+ tail
      /\ Forall (fun ch => ch = "/"%char) (list_ascii_of_string tail))
  /\ (forall p, base_url (init url) <> p +:+ "/")
  /\ _client (init url) = None
  /\ wf (init url).
Proof.
  split; [apply rstrip_slash_split|]. split; [apply rstrip_slash_last|].
  split; [reflexivity|]. split; [intros h []|discriminate].
Qed.

End ClientLaws.

(** ** The session binding, for every world *)

Section BindingLaws.

Lemma get_session_ok (sid : string) (w w1 : World) (x : Session.t) :
  get_session sid w = (Ok x, w1) -> Session.id x = sid.
Proof.
  unfold get_session, http. cbn [server log].
  destruct (next_fault (server w)) as [[] s]; [discriminate|].
  unfold serve_get_session.
  destruct (find_session sid (srv_sessions s)) as [y|] eqn:E; [|discriminate].
  intros [= <- _]. now apply find_session_id in E.
Qed.

Lemma get_or_create_none (w : World) :
  active_session w = None ->
  exists r w1,
    get_or_create_session w = (r, w1)
    /\ trace w1 = trace w ++ [creation]
    /\ match r with
       | Ok s => active_session w1 = Some s
       | Raise _ => active_session w1 = None
       end.
Proof.
  intros Hnone. unfold get_or_create_session, bind, get_world. rewrite Hnone.
  unfold ret at 1. unfold create_session, http. cbn [server log].
  destruct (next_fault (server w)) as [[] s].
  - eexists _, _. split; [reflexivity|]. split; [reflexivity|exact Hnone].
  - eexists _, _. split; [reflexivity|]. split; reflexivity.
Qed.

(** X22. After a call of [get_or_create_session], in every world.  When it
    returns a session, the binding holds a session with the same id; when it
    raises, the binding is empty.  The call makes one or two requests: a
    creation only, a verification only, or a verification followed by a
    creation. *)
Theorem binding_after_call (w : World) :
  exists r w' calls,
    get_or_create_session w = (r, w')
    /\ trace w' = trace w ++ calls
    /\ match r with
       | Ok s => exists c, active_session w' = Some c /\ Session.id c = Session.id s
       | Raise _ => active_session w' = None
       end
    /\ (calls = [creation]
        \/ exists sid, calls = [verification sid]
                       \/ calls = [verification sid; creation]).
Proof.
  destruct (active_session w) as [cached|] eqn:Hact.
  - destruct (get_session (Session.id cached) w) as [[x|e] w1] eqn:Hget.
    + exists (Ok x), w1, [verification (Session.id cached)].
      destruct (get_session_frame _ _ _ _ Hget) as (Ht & Hb & _).
      split.
      { unfold get_or_create_session, bind, get_world. rewrite Hact.
        unfold try_except, bind. now rewrite Hget. }
      split; [exact Ht|]. split.
      * exists cached. split; [congruence|].
        symmetry. eapply get_session_ok; eauto.
      * right. exists (Session.id cached). now left.
    + rewrite (get_or_create_stale w w1 cached e Hact Hget).
      destruct (get_session_frame _ _ _ _ Hget) as (Ht & _ & _).
      destruct (get_or_create_none (set_active_session None w1) eq_refl)
        as (r & w2 & Hrun & Ht2 & Hr).
      exists r, w2, [verification (Session.id cached); creation].
      split; [exact Hrun|]. cbn [trace set_active_session] in Ht2.
      split; [now rewrite Ht2, Ht, <- app_assoc|]. split.
      * destruct r as [s|e']; [exists s; auto|exact Hr].
      * right. exists (Session.id cached). now right.
  - destruct (get_or_create_none w Hact) as (r & w1 & Hrun & Ht & Hr).
    exists r, w1, [creation]. split; [exact Hrun|]. split; [exact Ht|]. split.
    + destruct r as [s|e]; [exists s; auto|exact Hr].
    + now left.
Qed.

(** X23. A confirmed binding is not refreshed.  When the server still
    holds the cached session, the call returns the server's record of it and
    keeps the cached one in the binding as it was, whatever the two differ
    in; it makes the one verification request and changes nothing on the
    server. *)
Theorem confirmed_binding_is_kept (w : World) (cached x : Session.t) :
  active_session w = Some cached ->
  fst (next_fault (server w)) = false ->
  find_session (Session.id cached) (srv_sessions (server w)) = Some x ->
  exists w',
    get_or_create_session w = (Ok x, w')
    /\ active_session w' = Some cached
    /\ trace w' = trace w ++ [verification (Session.id cached)]
    /\ srv_sessions (server w') = srv_sessions (server w)
    /\ srv_created (server w') = srv_created (server w).
Proof.
  intros Hact Hok Hfind.
  rewrite (get_or_create_live w cached x Hact Hok Hfind).
  eexists. split; [reflexivity|].
  cbn [active_session trace server set_server log].
  destruct (tick_sessions (server w)) as [Hs Hc]. auto.
Qed.

Lemma confirmed_binding_is_kept_witness :
  let renamed :=
    {| Session.id := "ses_0"; Session.title := Some "renamed on the server";
       Session.parent_id := None; Session.created_at := "0";
       Session.updated_at := "5"; Session.share := None |} in
  exists w',
    get_or_create_session
      (set_server (set_srv_sessions [renamed] Sample.srv1) Sample.w_cached)
    = (Ok renamed, w')
    /\ active_session w' = Some Sample.ses.
Proof.
  intros renamed.
  destruct (confirmed_binding_is_kept
              (set_server (set_srv_sessions [renamed] Sample.srv1) Sample.w_cached)
              Sample.ses renamed eq_refl eq_refl eq_refl)
    as (w' & Hrun & Hb & _).
  exists w'. auto.
Defined.

End BindingLaws.

(** ** The event stream and the monitor *)

Section StreamLaws.
Context {Ev : Type} (json_loads : string -> Loaded Ev).

Lemma prefix_split (p line : string) :
  String.prefix p line = true -> line = p +:+ Str.drop (String.length p) line.
Proof.
  revert line. induction p as [|c p IH]; intros [|d line]; simpl;
    try reflexivity; try discriminate.
  destruct (ascii_dec c d) as [->|]; [|discriminate].
  intros H. rewrite append_cons. f_equal. now apply IH.
Qed.

Lemma event_of_line_data (line : string) :
  event_of_line json_loads line <> Skipped ->
  exists d,
    line = "data: " +:+ d /\ d <> EmptyString
    /\ event_of_line json_loads line
       = match json_loads d with
         | Value e => Yields e
         | JSONDecodeError => Skipped
         | OtherException what => Raises what
         end.
Proof.
  unfold event_of_line, Str.startswith.
  destruct (String.prefix "data: " line) eqn:Hp; [|congruence].
  apply prefix_split in Hp. change (String.length "data: ") with 6 in Hp.
  destruct (Str.drop 6 line) as [|c d] eqn:Hd; [cbn; congruence|].
  cbn [Str.truthy]. intros _. exists (String c d).
  split; [exact Hp|]. split; [discriminate|reflexivity].
Qed.

Lemma events_of_sound (lines : list string) (e : Ev) :
  In e (fst (events_of json_loads lines)) ->
  exists d, In ("data: " +:+ d) lines /\ d <> EmptyString /\ json_loads d = Value e.
Proof.
  induction lines as [|line lines IH]; simpl; [contradiction|].
  destruct (event_of_line json_loads line) as [e'| |what] eqn:E.
  - destruct (events_of json_loads lines) as [events ending]. simpl in *.
    intros [<-|Hin].
    + destruct (event_of_line_data line) as (d & -> & Hd & Hl); [congruence|].
      rewrite E in Hl. exists d. split; [now left|]. split; [exact Hd|].
      destruct (json_loads d); congruence.
    + destruct (IH Hin) as (d & H1 & H2). eauto.
  - intros Hin. destruct (IH Hin) as (d & H1 & H2). eauto.
  - contradiction.
Qed.

Lemma events_of_length (lines : list string) :
  length (fst (events_of json_loads lines)) <= length lines.
Proof.
  induction lines as [|line lines IH]; simpl; [lia|].
  destruct (event_of_line json_loads line); simpl; try lia.
  destruct (events_of json_loads lines). simpl in *. lia.
Qed.

Lemma events_of_ending (lines : list string) :
  match snd (events_of json_loads lines) with
  | Exhausted => True
  | StatusError _ => False
  | LoadsError what =>
      exists d, In ("data: " +:+ d) lines /\ d <> EmptyString
                /\ json_loads d = OtherException what
  end.
Proof.
  induction lines as [|line lines IH]; simpl; [exact I|].
  destruct (event_of_line json_loads line) as [e'| |what] eqn:E.
  - destruct (events_of json_loads lines) as [events [| |w]]; simpl in *; auto.
    destruct IH as (d & H1 & H2). eauto.
  - destruct (snd (events_of json_loads lines)); auto.
    destruct IH as (d & H1 & H2). eauto.
  - simpl. destruct (event_of_line_data line) as (d & -> & Hd & Hl); [congruence|].
    rewrite E in Hl. exists d. split; [now left|]. split; [exact Hd|].
    destruct (json_loads d); congruence.
Qed.

End StreamLaws.

(** X24. Nothing is made up on the event stream.  However a subscription
    ends, every event it has yielded is the value [json.loads] returns for
    the non-empty text after ["data: "] of one of the lines, and there are no
    more events than lines.  It ends by an exception of [json.loads] only if
    [json.loads] raises that exception, not a [JSONDecodeError], on the data
    of one of the lines; and what it yields and how it ends is what resuming
    the generator again and again gives. *)
Theorem events_come_from_lines {Ev : Type} (json_loads : string -> Loaded Ev)
        (lines : list string) (events : list Ev) (ending : StreamEnd) :
  subscribe_events json_loads (Ok lines) = (events, ending) ->
  (forall e, In e events ->
     exists d, In ("data: " +:+ d) lines /\ d <> EmptyString
               /\ json_loads d = Value e)
  /\ length events <= length lines
  /\ match ending with
     | Exhausted => True
     | StatusError _ => False
     | LoadsError what =>
         exists d, In ("data: " +:+ d) lines /\ d <> EmptyString
                   /\ json_loads d = OtherException what
     end
  /\ (events, ending)
     = match anext json_loads lines with
       | Next e rest =>
           (e :: fst (events_of json_loads rest), snd (events_of json_loads rest))
       | StopAsyncIteration => ([], Exhausted)
       | Propagates what => ([], LoadsError what)
       end.
Proof.
  intros H. cbn [subscribe_events] in H.
  pose proof (events_of_sound json_loads lines) as Hsound.
  pose proof (events_of_length json_loads lines) as Hlen.
  pose proof (events_of_ending json_loads lines) as Hend.
  pose proof (events_of_anext json_loads lines) as Hnext.
  rewrite H in Hsound, Hlen, Hend, Hnext. cbn [fst snd] in *.
  repeat split; assumption.
Qed.

Lemma events_come_from_lines_witness :
  length ["{a}"; "{c}"] <= 4
  /\ exists d, In ("data: " +:+ d) ["data: {a}"; "data: "; "data:{b}"; "data: {c}"]
               /\ d <> EmptyString /\ Sample.loads d = Value "{c}".
Proof.
  destruct (events_come_from_lines Sample.loads
              ["data: {a}"; "data: "; "data:{b}"; "data: {c}"]
              ["{a}"; "{c}"] Exhausted eq_refl)
    as (Hsound & Hlen & _).
  split; [exact Hlen|]. apply Hsound. simpl. auto.
Defined.

Section MonitorLaws.

Lemma monitor_app (before after : list JVal) :
  _monitor_events (before ++ after)
  = if snd (_monitor_events before) then _monitor_events before
    else (fst (_monitor_events before) ++ fst (_monitor_events after),
          snd (_monitor_events after)).
Proof.
  induction before as [|ev before IH]; simpl.
  - now destruct (_monitor_events after).
  - destruct (monitor_event ev) as [logged|]; [|reflexivity].
    rewrite IH. destruct (_monitor_events before) as [ids [|]]; simpl.
    + reflexivity.
    + destruct (_monitor_events after) as [ids' c]. simpl.
      now destruct logged.
Qed.

(** X25. One event that is no dict ends the monitor.  When the stream
    yields a JSON value that is not an object, the loop of [_monitor_events]
    ends by an exception: what was logged before stays, and no event after
    it is looked at, whatever it is. *)
Theorem monitor_stops_at_non_dict (before after : list JVal) (bad : JVal) :
  (forall items, bad <> VDict items) ->
  _monitor_events (before ++ bad :: after)
  = (fst (_monitor_events before), true).
Proof.
  intros Hbad. rewrite monitor_app.
  assert (Hev : monitor_event bad = None).
  { destruct bad; try reflexivity. now contradiction (Hbad items). }
  simpl. rewrite Hev.
  destruct (_monitor_events before) as [ids [|]]; simpl; [reflexivity|].
  now rewrite app_nil_r.
Qed.

Lemma monitor_stops_at_non_dict_witness :
  _monitor_events
    ([VDict [("type", VStr "session.message"); ("sessionID", VStr "ses_0");
             ("message", VDict [("info", VDict [("role", VStr "assistant")])])]]
     ++ VNum "1"
     :: [VDict [("type", VStr "session.message"); ("sessionID", VStr "ses_1");
                ("message", VDict [("info", VDict [("role", VStr "assistant")])])]])
  = ([VStr "ses_0"], true).
Proof.
  apply (monitor_stops_at_non_dict
           [VDict [("type", VStr "session.message"); ("sessionID", VStr "ses_0");
                   ("message", VDict [("info", VDict [("role", VStr "assistant")])])]]
           [VDict [("type", VStr "session.message"); ("sessionID", VStr "ses_1");
                   ("message", VDict [("info", VDict [("role", VStr "assistant")])])]]
           (VNum "1")).
  discriminate.
Defined.

(** X26. Events of other types.  Over events that are objects of another
    type than ["session.message"], or of no type, the monitor logs nothing
    and does not end early, whatever else the objects hold; with such events
    first, it does with the events that follow what it does with them
    alone. *)
Theorem monitor_ignores_other_events (events after : list JVal) :
  Forall (fun ev => exists items,
              ev = VDict items
              /\ Dict.get "type" items <> Some (VStr "session.message")) events ->
  _monitor_events events = ([], false)
  /\ _monitor_events (events ++ after) = _monitor_events after.
Proof.
  intros Hall.
  assert (H : _monitor_events events = ([], false)).
  { induction Hall as [|ev events (items & -> & Hty) _ IH]; [reflexivity|].
    simpl. unfold monitor_event, jget.
    destruct (Dict.get "type" items) as [[| | |t| |]|] eqn:E; simpl;
      try (rewrite IH; reflexivity).
    destruct (String.eqb_spec t "session.message") as [->|_];
      [congruence|now rewrite IH]. }
  split; [exact H|]. rewrite monitor_app, H. simpl.
  now destruct (_monitor_events after).
Qed.

Lemma monitor_ignores_other_events_witness :
  _monitor_events [VDict [("type", VStr "server.connected")]; VDict []] = ([], false).
Proof.
  apply (monitor_ignores_other_events
           [VDict [("type", VStr "server.connected")]; VDict []] []).
  repeat constructor; eexists; (split; [reflexivity|discriminate]).
Defined.

End MonitorLaws.

(** ** The environment variables of the configuration *)

Section ExpandLaws.

Lemma Yaml_nested_ind (P : Yaml -> Prop) :
  (forall items, Forall (fun kv => P (snd kv)) items -> P (YDict items)) ->
  (forall l, Forall P l -> P (YList l)) ->
  (forall s, P (YStr s)) ->
  (forall x, P (YScalar x)) ->
  forall data, P data.
Proof.
  intros Hd Hl Hs Hx.
  refine (fix IH (data : Yaml) : P data :=
            match data with
            | YDict items =>
                Hd items
                   ((fix go (l : list (string * Yaml))
                     : Forall (fun kv => P (snd kv)) l :=
                       match l with
                       | [] => @List.Forall_nil _ _
                       | kv :: l' =>
                           @List.Forall_cons _ _ kv l'
                             (match kv as p return P (snd p) with
                              | (_, v) => IH v
                              end) (go l')
                       end) items)
            | YList l =>
                Hl l ((fix go (l : list Yaml) : Forall P l :=
                         match l with
                         | [] => @List.Forall_nil _ _
                         | v :: l' => @List.Forall_cons _ _ v l' (IH v) (go l')
                         end) l)
            | YStr s => Hs s
            | YScalar x => Hx x
            end).
Qed.

Lemma expand_compose (f g : string -> string) (data : Yaml) :
  _expand_env_vars g (_expand_env_vars f data)
  = _expand_env_vars (fun s => g (f s)) data.
Proof.
  induction data as [items IH|l IH|s|x] using Yaml_nested_ind; simpl;
    try reflexivity.
  - f_equal. rewrite map_map. apply map_ext_Forall.
    eapply Forall_impl; [exact IH|]. intros [k v] H. simpl in *. now rewrite H.
  - f_equal. rewrite map_map. now apply map_ext_Forall.
Qed.

Lemma expand_keys (f : string -> string) (data : Yaml) :
  all_keys (_expand_env_vars f data) = all_keys data.
Proof.
  induction data as [items IH|l IH|s|x] using Yaml_nested_ind; simpl;
    try reflexivity.
  - induction IH as [|[k v] items Hv _ IHitems]; simpl; [reflexivity|].
    simpl in Hv. now rewrite Hv, IHitems.
  - induction IH as [|v l Hv _ IHl]; simpl; [reflexivity|].
    now rewrite Hv, IHl.
Qed.

Lemma expand_values (f : string -> string) (data : Yaml) :
  value_strings (_expand_env_vars f data) = map f (value_strings data).
Proof.
  induction data as [items IH|l IH|s|x] using Yaml_nested_ind; simpl;
    try reflexivity.
  - induction IH as [|[k v] items Hv _ IHitems]; simpl; [reflexivity|].
    simpl in Hv. now rewrite Hv, IHitems, map_app.
  - induction IH as [|v l Hv _ IHl]; simpl; [reflexivity|].
    now rewrite Hv, IHl, map_app.
Qed.

Lemma expand_fixed (f : string -> string) (data : Yaml) :
  Forall (fun s => f s = s) (value_strings data) ->
  _expand_env_vars f data = data.
Proof.
  induction data as [items IH|l IH|s|x] using Yaml_nested_ind; simpl;
    try reflexivity.
  - intros Hall. f_equal.
    induction IH as [|[k v] items Hv _ IHitems]; simpl; [reflexivity|].
    simpl in Hall, Hv. apply Forall_app in Hall as [H1 H2].
    now rewrite (Hv H1), (IHitems H2).
  - intros Hall. f_equal.
    induction IH as [|v l Hv _ IHl]; simpl; [reflexivity|].
    simpl in Hall. apply Forall_app in Hall as [H1 H2].
    now rewrite (Hv H1), (IHl H2).
  - intros Hall. apply Forall_inv in Hall. now rewrite Hall.
Qed.

(** X27. Expanding the environment variables of a configuration.  The
    expansion reaches every string that is a value, at any depth, and
    nothing else: the keys of all dicts and the other scalars are as they
    were, and the value strings are the expanded old ones, in order.
    Expanding twice is expanding with the two expansions composed, and data
    whose value strings the expansion leaves alone comes back unchanged. *)
Theorem expand_env_vars_reaches_values_only (f g : string -> string) (data : Yaml) :
  all_keys (_expand_env_vars f data) = all_keys data
  /\ value_strings (_expand_env_vars f data) = map f (value_strings data)
  /\ _expand_env_vars g (_expand_env_vars f data)
     = _expand_env_vars (fun s => g (f s)) data
  /\ (Forall (fun s => f s = s) (value_strings data) ->
      _expand_env_vars f data = data).
Proof.
  split; [apply expand_keys|]. split; [apply expand_values|].
  split; [apply expand_compose|apply expand_fixed].
Qed.

Lemma expand_env_vars_reaches_values_only_witness :
  _expand_env_vars (fun s => if String.eqb s "$HOME" then "/home/bot" else s)
    (YDict [("matrix", YDict [("username", YStr "@bot:example.org");
                              ("allowed_users", YList [YStr "@alice:example.org"])]);
            ("bot", YDict [("max_message_length", YScalar "4000")])])
  = YDict [("matrix", YDict [("username", YStr "@bot:example.org");
                             ("allowed_users", YList [YStr "@alice:example.org"])]);
           ("bot", YDict [("max_message_length", YScalar "4000")])].
Proof.
  apply (proj2 (proj2 (proj2
           (expand_env_vars_reaches_values_only
              (fun s => if String.eqb s "$HOME" then "/home/bot" else s)
              (fun s => s)
              (YDict [("matrix", YDict [("username", YStr "@bot:example.org");
                                        ("allowed_users",
                                         YList [YStr "@alice:example.org"])]);
                      ("bot", YDict [("max_message_length", YScalar "4000")])]))))).
  repeat constructor.
Defined.

End ExpandLaws.
